(** * mam.client.js: channel controller, fragment reassembly and chain traversal

    A shallow embedding of [src/index.js] and the properties of its
    bookkeeping: the merkle-tree cursor advanced by [create], the mode switch
    [changeMode], the attachment address, the reassembly of bundle fragments
    in [txHashesToMessages] and the traversal loop of [fetch]; further
    [init], [subscribe], [listen], [attach] and [keyGen].

    Conventions of the embedding.
    - JavaScript values that the code tests for truthiness, compares with
      [===] or stores unchanged are values of [jsval].
    - Numbers that the code uses as counters (tree positions, fragment
      indices) are integer-valued and within the safe-integer range, where
      Number arithmetic is integer arithmetic; they are modelled in [Z].
    - Strings are sequences of one-byte characters (trytes are ASCII).
    - A call that may throw returns a [completion]; objects mutated in place
      are passed in and handed back (explicit state passing); what is written
      to the console is returned as a list of [console_entry].
    - The masking codec ([Mam], set by [setupEnv]), the ledger client, the
      reader of [../lib/mam], [./encryption] and [@iota/converter] are
      outside this file of the repository: they are Section variables. *)

From stdpp Require Import gmap strings list fin_maps.
From Stdlib Require Import ZArith Lia Permutation.

Open Scope Z_scope.

(** ** JavaScript values and completions *)

Inductive jsval : Type :=
  | JUndefined
  | JNull
  | JBool (b : bool)
  | JNum (z : Z)
  | JStr (s : string)
  | JObj (id : nat).

#[global] Instance jsval_eq_dec : EqDecision jsval.
Proof. solve_decision. Defined.

(** ToBoolean, as used by [if (v)], [!v] and [a || b]. *)
Definition truthy (v : jsval) : bool :=
  match v with
  | JUndefined | JNull => false
  | JBool b => b
  | JNum z => negb (z =? 0)
  | JStr s => negb (bool_decide (s = ""))
  | JObj _ => true
  end.

(** [a || b] *)
Definition js_or (a b : jsval) : jsval := if truthy a then a else b.

(** [a === b] on the values above. *)
Definition strict_eq (a b : jsval) : bool := bool_decide (a = b).

Inductive error : Type :=
  | TypeError (what : string)
  | Raised (tag : string).

#[global] Instance error_eq_dec : EqDecision error.
Proof. solve_decision. Defined.

Inductive completion (A : Type) : Type :=
  | Normal (a : A)
  | Throw (e : error).
Arguments Normal {A} a.
Arguments Throw {A} e.

#[global] Instance completion_ret : MRet completion := λ A a, Normal a.
#[global] Instance completion_bind : MBind completion := λ A B k c,
  match c with
  | Normal a => k a
  | Throw e => Throw e
  end.

Inductive console_entry : Type :=
  | console_log (text : string)
  | console_error (text : string) (e : error).

(** ** String.prototype.padEnd *)

Fixpoint repeat_string (filler : string) (k : nat) : string :=
  match k with
  | O => ""
  | S k => filler +:+ repeat_string filler k
  end.

(** [s.padEnd(targetLength, filler)]: nothing is added when [s] is already
    long enough or the filler is empty; otherwise the filler is repeated and
    cut to the missing length. *)
Definition padEnd (s : string) (targetLength : nat) (filler : string) : string :=
  let fillLen := (targetLength - String.length s)%nat in
  if bool_decide (filler = "") then s
  else s +:+ String.substring 0 fillLen (repeat_string filler fillLen).

(** [typeof sidekey === 'string' ? sidekey.padEnd(81, '9') : sidekey] *)
Definition side_key_of (sidekey : jsval) : jsval :=
  match sidekey with
  | JStr s => JStr (padEnd s 81 "9")
  | _ => sidekey
  end.

(** ** State objects *)

Record Channel : Type := {
  side_key : jsval;
  mode : jsval;
  next_root : jsval;
  security : Z;
  start : Z;
  count : Z;
  next_count : Z;
  index : Z
}.

Record Subscription : Type := {
  channelKey : jsval;
  timeout : Z;
  sub_root : string;
  sub_next_root : jsval;
  active : bool
}.

Record State : Type := {
  subscribed : gmap string Subscription;
  channel : Channel;
  seed : string
}.

(** [init(externalProvider, seed, security = 2)]; the provider handle and the
    random default seed are left to the caller. *)
Definition init (seed0 : string) (security0 : option Z) : State :=
  {| subscribed := ∅;
     channel := {| side_key := JNull; mode := JStr "public"; next_root := JNull;
                   security := default 2 security0;
                   start := 0; count := 1; next_count := 1; index := 0 |};
     seed := seed0 |}.


(** *** changeMode *)

Definition set_side_key (c : Channel) (v : jsval) : Channel :=
  {| side_key := v; mode := mode c; next_root := next_root c; security := security c;
     start := start c; count := count c; next_count := next_count c; index := index c |}.

Definition set_mode (c : Channel) (v : jsval) : Channel :=
  {| side_key := side_key c; mode := v; next_root := next_root c; security := security c;
     start := start c; count := count c; next_count := next_count c; index := index c |}.

Definition set_channel (s : State) (c : Channel) : State :=
  {| subscribed := subscribed s; channel := c; seed := seed s |}.

(** What [changeMode] hands back: the state object it was given, or the
    [undefined] that [console.log] returns. *)
Inductive changeMode_return : Type :=
  | returns_state
  | returns_undefined.

Record changeMode_result : Type := {
  cm_state : State;
  cm_console : list console_entry;
  cm_return : changeMode_return
}.

Definition changeMode (state : State) (mode0 sidekey : jsval) : changeMode_result :=
  if negb (strict_eq mode0 (JStr "public")) && negb (strict_eq mode0 (JStr "private"))
     && negb (strict_eq mode0 (JStr "restricted"))
  then {| cm_state := state;
          cm_console := [console_log "Did not recognise mode!"];
          cm_return := returns_undefined |}
  else if strict_eq mode0 (JStr "restricted") && negb (truthy sidekey)
  then {| cm_state := state;
          cm_console := [console_log "You must specify a side key for a restricted channel"];
          cm_return := returns_undefined |}
  else
    let channel1 :=
      if truthy sidekey
      then set_side_key (channel state) (side_key_of sidekey)
      else channel state in
    {| cm_state := set_channel state (set_mode channel1 mode0);
       cm_console := [];
       cm_return := returns_state |}.

(** The three modes [changeMode] accepts. *)
Definition recognised (mode0 : jsval) : Prop :=
  mode0 = JStr "public" ∨ mode0 = JStr "private" ∨ mode0 = JStr "restricted".

#[global] Instance recognised_dec mode0 : Decision (recognised mode0).
Proof. unfold recognised. apply _. Defined.

(** A valid cursor: [0 <= index < count] and [count >= 1]. *)
Definition valid_channel (c : Channel) : Prop :=
  0 ≤ index c ∧ index c < count c ∧ 1 ≤ count c.

(** ** Records exchanged with the collaborators *)

(** What [Mam.createMessage] returns: [mam.payload], [mam.root],
    [mam.next_root]. *)
Module MamMessage.
Record t : Type := mk { payload : string; root : string; next_root : string }.
End MamMessage.

(** What [Mam.decodeMessage] returns, and what the destructuring pattern
    [{ payload, next_root }] of [fetchSingle] expects. *)
Module Decoded.
Record t : Type := mk { payload : string; next_root : string }.
End Decoded.

(** What [create] returns. *)
Module Created.
Record t : Type := mk { state : State; payload : string; root : string; address : string }.
End Created.

(** What [fetchSingle] returns on success: [{ payload, nextRoot }]. *)
Module Single.
Record t : Type := mk { payload : string; nextRoot : string }.
End Single.

(** A transaction object of the ledger client. *)
Module Txo.
Record t : Type := mk {
  bundle : string;
  signatureMessageFragment : string;
  currentIndex : Z;
  lastIndex : Z
}.
End Txo.

(** What [reader.next()] resolves to: [message.value[0].message] carries
    [nextRoot] and [payload]; [message] itself and [message.value] may be
    missing, and [message.value] may be an empty array. *)
Module ReaderMessage.
Record t : Type := mk { nextRoot : string; payload : string }.
End ReaderMessage.

Record ReaderEntry : Type := { message : ReaderMessage.t }.

Record IteratorResult : Type := { value : option (list ReaderEntry) }.

(** [Mode] of [../lib/mam], and the read mode [fetch] picks:
    [selectedMode === 'public' ? Mode.Public : Mode.Old]. *)
Inductive Mode : Type := Public | Old.

Definition reader_mode (selectedMode : jsval) : Mode :=
  if strict_eq selectedMode (JStr "public") then Public else Old.

(** The entry [reader.next()] yields for a message that decodes. *)
Definition yields (next payload : string) : ReaderEntry :=
  {| message := {| ReaderMessage.nextRoot := next; ReaderMessage.payload := payload |} |}.

(** A recorded fragment [[idx, msg]] and the buffer [bundles]. *)
Abbreviation fragment := (Z * string)%type.
Abbreviation Bundles := (gmap string (list fragment)).

(** The names every object inherits from [Object.prototype]: for these
    [name in {}] is true although the object has no such property of its
    own. *)
Definition Object_prototype_names : list string :=
  ["constructor"; "__defineGetter__"; "__defineSetter__"; "hasOwnProperty";
   "__lookupGetter__"; "__lookupSetter__"; "isPrototypeOf"; "propertyIsEnumerable";
   "toString"; "valueOf"; "__proto__"; "toLocaleString"].

Definition inherited (name : string) : bool :=
  bool_decide (name ∈ Object_prototype_names).

(** [name in bundles] *)
Definition js_in (name : string) (bundles : Bundles) : bool :=
  bool_decide (is_Some (bundles !! name)) || inherited name.

(** The comparator [(a, b) => b[0] < a[0]]: its boolean result is converted
    to a number by the sort, [true] to 1 and [false] to 0. *)
Definition comparator (a b : fragment) : Z := if b.1 <? a.1 then 1 else 0.

(** [l.reduce((acc, n) => acc + n[1], '')] *)
Definition reduce_contents (l : list fragment) : string :=
  fold_left (λ acc n, acc +:+ n.2) l "".

(** What an awaited call leaves behind: the lines written to the console and
    how the promise settles ([Normal]: resolved, [Throw]: rejected). *)
Record settled (A : Type) : Type := {
  console : list console_entry;
  outcome : completion A
}.
Arguments console {A} _.
Arguments outcome {A} _.

(** The value [fetch] resolves to: [{ messages, nextRoot }], or the
    [undefined] that [console.error] returns. *)
Inductive fetch_value : Type :=
  | fetch_result (messages : list string) (nextRoot : string)
  | fetch_undefined.

(** The variables of the traversal loop, and the payloads handed to the
    callback so far. *)
Record fetch_vars : Type := {
  messages : list string;
  nextRoot : string;
  reads : nat;
  callback_calls : list string
}.

Record fetch_outcome : Type := {
  fetched : settled fetch_value;
  observed : list string
}.

(** The fragment [[idx, msg]] a transaction contributes, the entries
    recorded for a bundle, and the number of distinct positions among
    recorded entries. *)
Definition entry_of (txo : Txo.t) : fragment :=
  (Txo.currentIndex txo, Txo.signatureMessageFragment txo).

(** A transaction whose bundle identifier is no inherited property name
    (the bundle hashes of the ledger are 81 trytes, letters [A-Z] and [9],
    and none of the inherited names is of that shape). *)
Definition not_inherited (txo : Txo.t) : Prop := inherited (Txo.bundle txo) = false.

Definition recorded (bundles : Bundles) (bundle : string) : list fragment :=
  default [] (bundles !! bundle).

Definition distinct_positions (l : list fragment) : nat :=
  length (remove_dups (l.*1)).

(** The entries of [bundle] waiting in the buffer after [objs], told from the
    transactions of that bundle alone: each one is appended, and the buffer
    of the bundle is dropped when its length reaches [lastIndex + 1]. *)
Fixpoint pending_from (bundle : string) (waiting : list fragment) (objs : list Txo.t)
  : list fragment :=
  match objs with
  | [] => waiting
  | txo :: rest =>
      if bool_decide (Txo.bundle txo = bundle)
      then let pushed := waiting ++ [entry_of txo] in
           pending_from bundle
             (if Z.of_nat (length pushed) =? Txo.lastIndex txo + 1 then [] else pushed) rest
      else pending_from bundle waiting rest
  end.

Definition fragments_of (bundle : string) (objs : list Txo.t) : list Txo.t :=
  filter (λ txo, Txo.bundle txo = bundle) objs.

(** What reaches the caller of [fetch]: the error, when the promise is
    rejected, and the messages, when a [{ messages, nextRoot }] record is
    returned. *)
Definition surfaced_error (r : settled fetch_value) : option error :=
  match outcome r with
  | Throw e => Some e
  | Normal _ => None
  end.

Definition returned_messages (r : settled fetch_value) : option (list string) :=
  match outcome r with
  | Normal (fetch_result ms _) => Some ms
  | _ => None
  end.

(** ** The engine's sort

    [Array.prototype.sort] is a builtin of the JavaScript engine, not code
    of this repository. The language fixes the order it leaves only for a
    consistent comparator; for any other the order is the engine's. The
    module follows the sort of V8 since version 7.0 (Node.js 11 and later;
    [ArrayTimSortImpl], [CountAndMakeRun] and [BinaryInsertionSort] of its
    [array-sort.tq]): the leading run is counted, reversed when it descends,
    and the remaining elements are placed by binary insertion. (Arrays of
    64 elements and more are cut into several such runs that are then
    merged; the outcome is the same whenever the leading run is the whole
    array, and for every consistent comparator.) *)
Module V8.
Section Sort.
Context {A : Type} (comparefn : A → A → Z).

(** The loop of [CountAndMakeRun] after the first two elements: how many
    further elements continue the run. *)
Fixpoint run_tail (isDescending : bool) (previousElement : A) (rest : list A) : nat :=
  match rest with
  | [] => O
  | currentElement :: rest' =>
      let order := comparefn currentElement previousElement in
      if (if isDescending then 0 <=? order else order <? 0)
      then O
      else S (run_tail isDescending currentElement rest')
  end.

(** The length of the leading run and the array with that run ascending. *)
Definition CountAndMakeRun (workArray : list A) : nat * list A :=
  match workArray with
  | elementHigh :: elementLow :: rest =>
      let order := comparefn elementLow elementHigh in
      let isDescending := order <? 0 in
      let runLength := (2 + run_tail isDescending elementLow rest)%nat in
      (runLength,
       if isDescending
       then rev (take runLength workArray) ++ drop runLength workArray
       else workArray)
  | _ => (1%nat, workArray)
  end.

(** The place of [pivot] among [workArray[left .. right)]. *)
Fixpoint binary_search (fuel : nat) (workArray : list A) (pivot : A) (left right : nat) : nat :=
  match fuel with
  | O => left
  | S fuel' =>
      if (left <? right)%nat
      then let mid := (left + (right - left) / 2)%nat in
           match workArray !! mid with
           | Some midElement =>
               if comparefn pivot midElement <? 0
               then binary_search fuel' workArray pivot left mid
               else binary_search fuel' workArray pivot (S mid) right
           | None => left
           end
      else left
  end.

(** [workArray[left .. start)] moves one place up and [pivot] takes
    [workArray[left]]. *)
Definition place (workArray : list A) (pivot : A) (left start : nat) : list A :=
  take left workArray ++ pivot :: take (start - left) (drop left workArray)
    ++ drop (S start) workArray.

Fixpoint BinaryInsertionSort (todo : nat) (workArray : list A) (start : nat) : list A :=
  match todo with
  | O => workArray
  | S todo' =>
      match workArray !! start with
      | Some pivot =>
          let left := binary_search (S start) workArray pivot 0 start in
          BinaryInsertionSort todo' (place workArray pivot left start) (S start)
      | None => workArray
      end
  end.

Definition sort (l : list A) : list A :=
  if (length l <? 2)%nat then l
  else let run := CountAndMakeRun l in
       BinaryInsertionSort (length l - run.1) run.2 run.1.

End Sort.
End V8.

(** The comparator an ascending sort by position takes: [a[0] - b[0]]. *)
Definition numeric_comparator (a b : fragment) : Z := a.1 - b.1.

(** A transfer handed to [prepareTransfers]. *)
Module Transfer.
Record t : Type := mk { address : string; value : Z; message : string }.
End Transfer.

(** The position of the merkle tree the next publication signs with. *)
Definition leaf (c : Channel) : Z := start c + index c.

(** A restricted channel has a side key. *)
Definition keyed (c : Channel) : Prop :=
  mode c = JStr "restricted" → truthy (side_key c) = true.

(** The characters held by a list of fragments, by the buffer, and by the
    items [processTx] returned. *)
Definition chars (l : list fragment) : nat :=
  sum_list ((λ n, String.length n.2) <$> l).

Definition buffered (bundles : Bundles) : nat :=
  map_fold (λ _ l acc, (chars l + acc)%nat) 0%nat bundles.

Definition emitted_chars (items : list (option string)) : nat :=
  sum_list (String.length <$> omap id items).

(** The items returned for the transactions of one bundle. *)
Definition items_of (bundle : string) (objs : list Txo.t) (items : list (option string))
  : list (option string) :=
  (filter (λ p, Txo.bundle p.1 = bundle) (zip objs items)).*2.


(** ** Stand-ins for the collaborators

    Concrete codec, converter, ledger and reader, used to run the operations
    on examples. *)
Module Stub.

Definition trits (s : string) : list Z :=
  (λ c, Z.of_N (Ascii.N_of_ascii c)) <$> String.list_ascii_of_string s.

Definition trytes (l : list Z) : string :=
  String.string_of_list_ascii ((λ z, Ascii.ascii_of_N (Z.to_N z)) <$> l).

Definition hash (rounds : Z) (l : list Z) : list Z := rounds :: l.

Definition createMessage (seed0 message0 : string) (key : jsval) (c : Channel)
  : completion MamMessage.t :=
  Normal {| MamMessage.payload := message0; MamMessage.root := "ROOT";
            MamMessage.next_root := "NEXT" |}.

Definition decodeMessage (payload : string) (key : jsval) (root : string)
  : completion Decoded.t :=
  Normal {| Decoded.payload := payload; Decoded.next_root := "NEXT" |}.

Definition fragment_of (bundle : string) (position : Z) (content : string) (last : Z)
  : Txo.t :=
  {| Txo.bundle := bundle; Txo.signatureMessageFragment := content;
     Txo.currentIndex := position; Txo.lastIndex := last |}.

(** Bundle ["B1"], [lastIndex = 1]: the fragment of position 1 arrives
    first. *)
Definition xyz_then_abc : list Txo.t :=
  [fragment_of "B1" 1 "XYZ" 1; fragment_of "B1" 0 "ABC" 1].

Definition abc_then_xyz : list Txo.t :=
  [fragment_of "B1" 0 "ABC" 1; fragment_of "B1" 1 "XYZ" 1].

(** Bundle ["B1"], [lastIndex = 1]: the fragment of position 0 arrives
    twice (a reattached transaction), that of position 1 never. *)
Definition abc_twice : list Txo.t :=
  [fragment_of "B1" 0 "ABC" 1; fragment_of "B1" 0 "ABC" 1].

(** Bundle ["B1"], [lastIndex = 2]: two contents for position 0. *)
Definition old_then_new : list Txo.t :=
  [fragment_of "B1" 0 "OLD" 2; fragment_of "B1" 0 "NEW" 2].

(** Bundle ["B1"], [lastIndex = 2], one fragment, among fragments of
    ["B2"]. *)
Definition interleaved_pre : list Txo.t :=
  [fragment_of "B2" 0 "M" 1].

Definition interleaved_post : list Txo.t :=
  [fragment_of "B2" 1 "N" 1; fragment_of "B2" 0 "M" 0].

Definition findTransactions (addresses : list string) : completion (list string) :=
  Normal ["TXHASH1"; "TXHASH2"].

Definition getTransactionObjects (objs : list Txo.t) (hashes : list string)
  : completion (list Txo.t) :=
  Normal objs.

(** The chain [R0 -> R1 -> R2], nothing at [R3]. *)
Definition chain_root (i : nat) : string :=
  match i with
  | 0%nat => "R0"
  | 1%nat => "R1"
  | 2%nat => "R2"
  | _ => "R3"
  end.

Definition chain_payload (i : nat) : string :=
  match i with
  | 0%nat => "P0"
  | 1%nat => "P1"
  | 2%nat => "P2"
  | _ => "P3"
  end.

Definition chain_reader (ctx : unit) (n : nat) (m : Mode) (root : string) (key : jsval)
  : completion (option IteratorResult) :=
  if bool_decide (root = "R0") then Normal (Some {| value := Some [yields "R1" "P0"] |})
  else if bool_decide (root = "R1") then Normal (Some {| value := Some [yields "R2" "P1"] |})
  else if bool_decide (root = "R2") then Normal (Some {| value := Some [yields "R3" "P2"] |})
  else Normal (Some {| value := Some [] |}).

(** The same chain on a ledger that fails at the second read. *)
Definition failing_reader (ctx : unit) (n : nat) (m : Mode) (root : string) (key : jsval)
  : completion (option IteratorResult) :=
  if bool_decide (root = "R0") then Normal (Some {| value := Some [yields "R1" "P0"] |})
  else Throw (Raised "request failed").

(** A root whose message points back to it. *)
Definition cyclic_reader (ctx : unit) (n : nat) (m : Mode) (root : string) (key : jsval)
  : completion (option IteratorResult) :=
  Normal (Some {| value := Some [yields root "P"] |}).

(** The chain [R0 -> R1 -> R2] for a reader in mode [Old] with no key, as
    [listen] reads; any other read fails. *)
Definition old_reader (ctx : unit) (n : nat) (m : Mode) (root : string) (key : jsval)
  : completion (option IteratorResult) :=
  match m with
  | Old => if bool_decide (key = JStr "") then chain_reader ctx n m root key
           else Throw (Raised "wrong key")
  | Public => Throw (Raised "wrong mode")
  end.





(** Random bytes: 250 is above the bound and skipped. *)
Definition randomBytes : list Byte.byte :=
  [Byte.x00; Byte.xfa; Byte.x1a; Byte.x1b; Byte.xf2]%list.

(** A side key of 85 characters. *)
Definition long_key : string :=
  "ABCDEFGHIJKLMNOPQRSTUVWXYZABCDEFGHIJKLMNOPQRSTUVWXYZABCDEFGHIJKLMNOPQRSTUVWXYZABCDEFG".

(** A subscription to the chain, holding a key. *)
Definition subscription : Subscription :=
  {| channelKey := JStr "SECRET"; timeout := 5000; sub_root := "R0";
     sub_next_root := JNull; active := true |}.

(** Ninety bytes, every tenth above the bound. *)
Definition seed_bytes : list Byte.byte :=
  mjoin (replicate 9 [Byte.x00; Byte.x01; Byte.x02; Byte.x1a; Byte.x1b; Byte.x50;
                      Byte.xf2; Byte.xf3; Byte.x99; Byte.x0a]).

(** The bundle ["B1"] ([lastIndex = 1]) arriving twice, between fragments
    of ["B2"]. *)
Definition reattached : list Txo.t :=
  [fragment_of "B1" 0 "ABC" 1; fragment_of "B2" 0 "M" 2; fragment_of "B1" 1 "XYZ" 1;
   fragment_of "B1" 0 "ABC" 1; fragment_of "B2" 1 "N" 2; fragment_of "B1" 1 "XYZ" 1].

End Stub.

(** ** The operations of [index.js] *)

Section Controller.

(** The codec bindings installed by [setupEnv]. *)
Variable Mam_createMessage : string → string → jsval → Channel → completion MamMessage.t.
Variable Mam_decodeMessage : string → jsval → string → completion Decoded.t.

(** [converter.trits], [converter.trytes] and [Encryption.hash]. *)
Variable converter_trits : string → list Z.
Variable converter_trytes : list Z → string.
Variable Encryption_hash : Z → list Z → list Z.

(** The ledger client: [findTransactions({addresses})] and
    [getTransactionObjects(hashes)]. *)
Variable findTransactions : list string → completion (list string).
Variable getTransactionObjects : list string → completion (list Txo.t).

(** [Array.prototype.sort(comparefn)] of the engine. *)
Variable Array_sort : (fragment → fragment → Z) → list fragment → list fragment.

(** [createContext()], and [new Reader(ctx, client, mode, root, key).next()]:
    what the [n]-th read of a traversal answers. *)
Variable Context : Type.
Variable createContext : completion Context.
Variable Reader_next : Context → nat → Mode → string → jsval → completion (option IteratorResult).

(** *** create *)

(** Lines 86-94: the cursor of the merkle tree. *)
Definition advance (c : Channel) : Channel :=
  if index c =? count c - 1
  then {| side_key := side_key c; mode := mode c; next_root := next_root c;
          security := security c;
          start := next_count c + start c; count := count c;
          next_count := next_count c; index := 0 |}
  else {| side_key := side_key c; mode := mode c; next_root := next_root c;
          security := security c;
          start := start c; count := count c;
          next_count := next_count c; index := index c + 1 |}.

Definition set_next_root (c : Channel) (v : jsval) : Channel :=
  {| side_key := side_key c; mode := mode c; next_root := v; security := security c;
     start := start c; count := count c; next_count := next_count c; index := index c |}.

(** Lines 101-108: the attachment address of a message of root [root]. *)
Definition create_address (mode0 : jsval) (root : string) : string :=
  if negb (strict_eq mode0 (JStr "public"))
  then converter_trytes (Encryption_hash 81 (converter_trits root))
  else root.

Definition create (state : State) (message0 : string) : completion Created.t :=
  let channel0 := channel state in
  mam ← Mam_createMessage (seed state) message0 (side_key channel0) channel0;
  let channel1 := set_next_root (advance channel0) (JStr (MamMessage.next_root mam)) in
  let address := create_address (mode channel1) (MamMessage.root mam) in
  mret {| Created.state := set_channel state channel1;
          Created.payload := MamMessage.payload mam;
          Created.root := MamMessage.root mam;
          Created.address := address |}.

(** *** decode *)

(** The body calls the codec and has no [return]: [None] is the
    [undefined] the call evaluates to. *)
Definition decode (payload : string) (sidekey : jsval) (root : string)
  : completion (option Decoded.t) :=
  let key := side_key_of sidekey in
  _ ← Mam_decodeMessage payload key root;
  mret None.

(** [const { payload, next_root } = v] *)
Definition destructure (v : option Decoded.t) : completion (string * string) :=
  match v with
  | Some d => Normal (Decoded.payload d, Decoded.next_root d)
  | None => Throw (TypeError "Cannot destructure property of undefined")
  end.

(** *** hash *)

Definition hash (data : string) (rounds : Z) : string :=
  converter_trytes
    (Encryption_hash (if rounds =? 0 then 81 else rounds) (converter_trits data)).

(** *** txHashesToMessages *)

Definition processTx (bundles : Bundles) (txo : Txo.t)
  : completion (Bundles * option string) :=
  let bundle := Txo.bundle txo in
  let msg := Txo.signatureMessageFragment txo in
  let idx := Txo.currentIndex txo in
  let maxIdx := Txo.lastIndex txo in
  pushed ←
    (if js_in bundle bundles
     then match bundles !! bundle with
          | Some l => Normal (l ++ [(idx, msg)])
          | None => Throw (TypeError "bundles[bundle].push is not a function")
          end
     else Normal [(idx, msg)]);
  if Z.of_nat (length pushed) =? maxIdx + 1
  then Normal (delete bundle bundles, Some (reduce_contents (Array_sort comparator pushed)))
  else Normal (<[bundle := pushed]> bundles, None).

(** [objs.map(result => processTx(result))], with the buffer it leaves. *)
Fixpoint map_processTx (bundles : Bundles) (objs : list Txo.t)
  : completion (Bundles * list (option string)) :=
  match objs with
  | [] => Normal (bundles, [])
  | txo :: rest =>
      r ← processTx bundles txo;
      rs ← map_processTx r.1 rest;
      mret (rs.1, r.2 :: rs.2)
  end.

Definition txHashesToMessages (hashes : list string) : completion (list string) :=
  objs ← getTransactionObjects hashes;
  items ← map_processTx ∅ objs;
  mret (omap id (items.2 : list (option string))).

(** *** fetchSingle *)

(** Lines 160-163; [rounds] is [None] when the argument is omitted. *)
Definition fetchSingle_address (root : string) (mode0 : jsval) (rounds : option Z) : string :=
  if strict_eq mode0 (JStr "private") || strict_eq mode0 (JStr "restricted")
  then hash root (default 81 rounds)
  else root.

(** Lines 170-179: the first candidate that decodes is returned; a
    candidate that raises is logged and skipped. *)
Fixpoint fetchSingle_loop (messagesGen : list string) (sidekey : jsval) (root : string)
    (log : list console_entry) : list console_entry * option Single.t :=
  match messagesGen with
  | [] => (log, None)
  | message0 :: rest =>
      match d ← decode message0 sidekey root; destructure d with
      | Normal (payload, next_root0) =>
          (log, Some {| Single.payload := payload; Single.nextRoot := next_root0 |})
      | Throw e =>
          fetchSingle_loop rest sidekey root (log ++ [console_error "failed to parse: " e])
      end
  end.

Definition fetchSingle (root : string) (mode0 sidekey : jsval) (rounds : option Z)
  : settled (option Single.t) :=
  let address := fetchSingle_address root mode0 rounds in
  match hashes ← findTransactions [address]; txHashesToMessages hashes with
  | Throw e => {| console := []; outcome := Throw e |}
  | Normal messagesGen =>
      let r := fetchSingle_loop messagesGen sidekey root [] in
      {| console := r.1; outcome := Normal r.2 |}
  end.

(** *** fetch *)

(** [message && message.value && message.value[0]] *)
Definition hasMessage (m : option IteratorResult) : option ReaderEntry :=
  match m with
  | Some {| value := Some (first :: _) |} => Some first
  | _ => None
  end.

(** The [do ... while (!!hasMessage)] loop, at most [fuel] reads; [None]
    when the reads are used up before the loop has ended. The callback is
    caller code: the model records the payloads it is called with. *)
Fixpoint fetch_loop (fuel : nat) (ctx : Context) (mode0 : Mode) (sidekey : jsval)
    (callback : bool) (v : fetch_vars) : option (completion fetch_vars * list string) :=
  match fuel with
  | O => None
  | S fuel' =>
      match Reader_next ctx (reads v) mode0 (nextRoot v) (js_or sidekey (JStr "")) with
      | Throw e => Some (Throw e, callback_calls v)
      | Normal m =>
          match hasMessage m with
          | Some first =>
              let payload := ReaderMessage.payload (message first) in
              fetch_loop fuel' ctx mode0 sidekey callback
                {| messages := messages v ++ [payload];
                   nextRoot := ReaderMessage.nextRoot (message first);
                   reads := S (reads v);
                   callback_calls :=
                     if callback then callback_calls v ++ [payload] else callback_calls v |}
          | None => Some (Normal v, callback_calls v)
          end
      end
  end.

Definition fetch (fuel : nat) (root : string) (selectedMode sidekey : jsval) (callback : bool)
  : option fetch_outcome :=
  match createContext with
  | Throw e =>
      Some {| fetched := {| console := []; outcome := Throw e |}; observed := [] |}
  | Normal ctx =>
      let mode0 := reader_mode selectedMode in
      match fetch_loop fuel ctx mode0 sidekey callback
              {| messages := []; nextRoot := root; reads := 0; callback_calls := [] |} with
      | None => None
      | Some (Normal v, calls) =>
          Some {| fetched := {| console := [];
                                outcome := Normal (fetch_result (messages v) (nextRoot v)) |};
                  observed := calls |}
      | Some (Throw e, calls) =>
          Some {| fetched := {| console := [console_error "failed to parse: " e];
                                outcome := Normal fetch_undefined |};
                  observed := calls |}
      end
  end.


(** *** The chain of publications *)

(** One successful [create]. *)
Definition publishes (s s' : State) : Prop :=
  ∃ message0 created, create s message0 = Normal created ∧ Created.state created = s'.

(** *** listen *)

(** What one firing of the timer leaves: the console lines, how the
    promise of the timer's function settles, and the arrays the callback was
    called with. *)
Record tick : Type := {
  tick_console : list console_entry;
  tick_outcome : completion unit;
  delivered : list (list string)
}.

(** The function handed to [setTimeout]: [fetch(root)] with no mode, no key
    and no callback, then [resp.nextRoot] and [callback(resp.messages)]. *)
Definition listen_tick (fuel : nat) (root : string) : option tick :=
  match fetch fuel root JUndefined JUndefined false with
  | None => None
  | Some out =>
      Some match outcome (fetched out) with
           | Throw e =>
               {| tick_console := console (fetched out); tick_outcome := Throw e;
                  delivered := [] |}
           | Normal fetch_undefined =>
               {| tick_console := console (fetched out);
                  tick_outcome :=
                    Throw (TypeError "Cannot read property 'nextRoot' of undefined");
                  delivered := [] |}
           | Normal (fetch_result ms _) =>
               {| tick_console := console (fetched out); tick_outcome := Normal tt;
                  delivered := [ms] |}
           end
  end.

(** [setTimeout(f, channel.timeout)]: one firing, after [delay]. *)
Record Timer : Type := {
  delay : Z;
  fires : nat → option tick
}.

Definition listen (channel0 : Subscription) : Timer :=
  {| delay := timeout channel0;
     fires := λ fuel, listen_tick fuel (sub_root channel0) |}.

(** *** attach *)

(** [prepareTransfers(seed, transfers, {})], and [sendTrytes(trytes, depth,
    mwm)]: whether the call itself returns, and how the promise it returns
    settles. *)
Variable prepareTransfers : string → list Transfer.t → completion (list string).
Variable Sent : Type.
Variable sendTrytes : list string → Z → Z → completion (completion Sent).


(** *** keyGen *)

Definition charset : string := "ABCDEFGHIJKLMNOPQRSTUVWXYZ9".

(** [s.charAt(i)] *)
Definition charAt (s : string) (i : nat) : string :=
  match String.get i s with
  | Some c => String c ""
  | None => ""
  end.

(** [byte[0] < 243] and [charset.charAt(byte[0] % 27)] *)
Definition accepted (byte : Byte.byte) : bool := (Byte.to_N byte <? 243)%N.

Definition tryte_of (byte : Byte.byte) : string :=
  charAt charset (N.to_nat (Byte.to_N byte mod 27)).

(** The loop of [keyGen]; [randomBytes] are the bytes [crypto.randomBytes(1)]
    hands out, one per iteration, and [None] is the loop still running when
    they are used up. *)
Fixpoint keyGen_loop (length0 : Z) (randomBytes : list Byte.byte) (key : string)
  : option string :=
  match randomBytes with
  | [] => if Z.of_nat (String.length key) <? length0 then None else Some key
  | byte :: rest =>
      if Z.of_nat (String.length key) <? length0
      then if accepted byte
           then keyGen_loop length0 rest (key +:+ tryte_of byte)
           else keyGen_loop length0 rest key
      else Some key
  end.

Definition keyGen (length0 : Z) (randomBytes : list Byte.byte) : option string :=
  keyGen_loop length0 randomBytes "".

(** [init(provider)] with the seed left out: [seed = keyGen(81)]. *)
Definition init_without_seed (randomBytes : list Byte.byte) (security0 : option Z)
  : option State :=
  (λ seed0, init seed0 security0) <$> keyGen 81 randomBytes.

(** The strings of a list one after the other. *)
Definition join (l : list string) : string := foldr String.append "" l.

(** The characters of the tryte alphabet. *)
Definition tryte_string (s : string) : Prop :=
  Forall (λ c, c ∈ String.list_ascii_of_string charset) (String.list_ascii_of_string s).

(** All byte values. *)
Definition all_bytes : list Byte.byte :=
  omap (λ n, Byte.of_N (N.of_nat n)) (seq 0 256).

(** * Properties *)

Example v8_sort_numeric :
  V8.sort numeric_comparator [(3, "d"); (1, "b"); (2, "c"); (0, "a"); (5, "f"); (4, "e")]
  = [(0, "a"); (1, "b"); (2, "c"); (3, "d"); (4, "e"); (5, "f")].
Proof. vm_compute. reflexivity. Qed.

Example v8_sort_boolean :
  V8.sort comparator [(3, "d"); (1, "b"); (2, "c"); (0, "a")]
  = [(3, "d"); (1, "b"); (2, "c"); (0, "a")].
Proof. vm_compute. reflexivity. Qed.

Example v8_sort_desc :
  V8.sort numeric_comparator [(5, "d"); (3, "b"); (2, "c"); (7, "a"); (2, "x"); (5, "y")]
  = [(2, "c"); (2, "x"); (3, "b"); (5, "d"); (5, "y"); (7, "a")].
Proof. vm_compute. reflexivity. Qed.

(** ** Strings *)

Lemma length_append (a b : string) :
  String.length (a +:+ b) = (String.length a + String.length b)%nat.
Proof. induction a as [|c a IH]; simpl; [reflexivity | by rewrite IH]. Qed.

Lemma length_repeat_char (c : Ascii.ascii) (k : nat) :
  String.length (repeat_string (String c "") k) = k.
Proof. induction k as [|k IH]; [reflexivity | exact (f_equal S IH)]. Qed.

Lemma substring_repeat_char (c : Ascii.ascii) (k : nat) :
  String.substring 0 k (repeat_string (String c "") k) = repeat_string (String c "") k.
Proof. induction k as [|k IH]; [reflexivity | exact (f_equal (String c) IH)]. Qed.

Lemma padEnd_char (s : string) (n : nat) (c : Ascii.ascii) :
  padEnd s n (String c "") = s +:+ repeat_string (String c "") (n - String.length s).
Proof.
  unfold padEnd. rewrite bool_decide_eq_false_2 by discriminate.
  by rewrite substring_repeat_char.
Qed.

Lemma padEnd_char_length (s : string) (n : nat) (c : Ascii.ascii) :
  (String.length s ≤ n)%nat → String.length (padEnd s n (String c "")) = n.
Proof.
  intros Hle. rewrite padEnd_char, length_append, length_repeat_char. lia.
Qed.

(** ** changeMode *)

Lemma changeMode_unrecognised (state : State) (mode0 sidekey : jsval) :
  ¬ recognised mode0 →
  changeMode state mode0 sidekey
  = {| cm_state := state;
       cm_console := [console_log "Did not recognise mode!"];
       cm_return := returns_undefined |}.
Proof.
  intros Hm. unfold changeMode, strict_eq.
  repeat case_bool_decide; simpl; try reflexivity;
    exfalso; apply Hm; unfold recognised; auto.
Qed.

Lemma changeMode_restricted_no_key (state : State) (sidekey : jsval) :
  truthy sidekey = false →
  changeMode state (JStr "restricted") sidekey
  = {| cm_state := state;
       cm_console := [console_log "You must specify a side key for a restricted channel"];
       cm_return := returns_undefined |}.
Proof. intros Hk. unfold changeMode. rewrite Hk. reflexivity. Qed.

Lemma changeMode_accepts (state : State) (mode0 sidekey : jsval) :
  recognised mode0 →
  truthy sidekey = true →
  changeMode state mode0 sidekey
  = {| cm_state :=
         set_channel state
           (set_mode (set_side_key (channel state) (side_key_of sidekey)) mode0);
       cm_console := [];
       cm_return := returns_state |}.
Proof.
  intros Hm Hk. unfold changeMode. rewrite Hk.
  destruct Hm as [-> | [-> | ->]]; reflexivity.
Qed.

(** An empty string counts as no side key: the key the channel has is
    kept. *)
Lemma changeMode_empty_key (state : State) (mode0 : jsval) :
  mode0 = JStr "public" ∨ mode0 = JStr "private" →
  changeMode state mode0 (JStr "")
  = {| cm_state := set_channel state (set_mode (channel state) mode0);
       cm_console := [];
       cm_return := returns_state |}.
Proof. intros [-> | ->]; reflexivity. Qed.

(** C9. A call with mode ['restricted'] and no side key, or with a mode
    that is none of ['public'], ['private'], ['restricted'], hands the
    state back as it was (mode and side key included), writes one line to
    the console and returns [undefined] instead of the state. *)
Theorem changeMode_rejects (state : State) (mode0 sidekey : jsval)
    (Hbad : (mode0 = JStr "restricted" ∧ truthy sidekey = false) ∨ ¬ recognised mode0) :
  let r := changeMode state mode0 sidekey in
  cm_state r = state
  ∧ mode (channel (cm_state r)) = mode (channel state)
  ∧ side_key (channel (cm_state r)) = side_key (channel state)
  ∧ cm_return r = returns_undefined
  ∧ ∃ text, cm_console r = [console_log text].
Proof.
  destruct (decide (recognised mode0)) as [Hrec | Hrec].
  - destruct Hbad as [[-> Hk] | Hn]; [| contradiction].
    rewrite changeMode_restricted_no_key by assumption. simpl. eauto 10.
  - rewrite changeMode_unrecognised by assumption. simpl. eauto 10.
Qed.

(** C10. A call with a recognised mode and a supplied (truthy, that is
    non-empty) string side key of at most 81 characters stores the key
    followed by ['9'] up to 81 characters; ["ABC"] is stored followed by 78
    times ['9']. *)
Theorem changeMode_pads_side_key (state : State) (mode0 : jsval) (s : string)
    (Hmode : recognised mode0)
    (Hsupplied : truthy (JStr s) = true)
    (Hlen : (String.length s ≤ 81)%nat) :
  let r := changeMode state mode0 (JStr s) in
  side_key (channel (cm_state r))
  = JStr (s +:+ repeat_string "9" (81 - String.length s))
  ∧ (∃ stored, side_key (channel (cm_state r)) = JStr stored ∧ String.length stored = 81%nat)
  ∧ cm_return r = returns_state
  ∧ (s = "ABC" →
     side_key (channel (cm_state r)) = JStr ("ABC" +:+ repeat_string "9" 78)).
Proof.
  rewrite changeMode_accepts by assumption. simpl.
  rewrite padEnd_char. repeat split.
  - eexists. split; [reflexivity |].
    rewrite length_append, length_repeat_char. lia.
  - intros ->. reflexivity.
Qed.

(** ** create *)

Lemma advance_exhausted (c : Channel) :
  index c = count c - 1 →
  index (advance c) = 0 ∧ start (advance c) = next_count c + start c.
Proof.
  intros H. unfold advance. rewrite (proj2 (Z.eqb_eq _ _) H). split; reflexivity.
Qed.

Lemma advance_step (c : Channel) :
  index c ≠ count c - 1 →
  index (advance c) = index c + 1 ∧ start (advance c) = start c.
Proof.
  intros H. unfold advance. rewrite (proj2 (Z.eqb_neq _ _) H). split; reflexivity.
Qed.

Lemma advance_keeps (c : Channel) :
  count (advance c) = count c ∧ next_count (advance c) = next_count c
  ∧ mode (advance c) = mode c ∧ side_key (advance c) = side_key c
  ∧ security (advance c) = security c.
Proof. unfold advance. destruct (index c =? count c - 1); repeat split. Qed.

Lemma create_returns (state : State) (message0 : string) (mam : MamMessage.t) :
  Mam_createMessage (seed state) message0 (side_key (channel state)) (channel state)
  = Normal mam →
  create state message0
  = Normal {| Created.state :=
                set_channel state
                  (set_next_root (advance (channel state)) (JStr (MamMessage.next_root mam)));
              Created.payload := MamMessage.payload mam;
              Created.root := MamMessage.root mam;
              Created.address := create_address (mode (channel state)) (MamMessage.root mam) |}.
Proof.
  intros Hmam. unfold create. rewrite Hmam. simpl.
  by rewrite (proj1 (proj2 (proj2 (advance_keeps _)))).
Qed.

(** C1. On a valid cursor ([0 <= index < count], [count >= 1]) the advance
    made by [create] never leaves [index >= count]: from [index = count - 1]
    it sets [index] to 0 and adds the prior [next_count] to [start];
    otherwise it adds 1 to [index] and keeps [start] and [count]. *)
Theorem create_advances_cursor (state : State) (message0 : string) (mam : MamMessage.t)
    (Hvalid : valid_channel (channel state))
    (Hmam : Mam_createMessage (seed state) message0 (side_key (channel state)) (channel state)
            = Normal mam) :
  ∃ created,
    create state message0 = Normal created
    ∧ let c := channel state in
      let c' := channel (Created.state created) in
      ¬ (index c' >= count c')
      ∧ valid_channel c'
      ∧ (index c = count c - 1 →
         index c' = 0 ∧ start c' = start c + next_count c ∧ count c' = count c)
      ∧ (index c ≠ count c - 1 →
         index c' = index c + 1 ∧ start c' = start c ∧ count c' = count c).
Proof.
  eexists. split; [by apply create_returns |]. simpl.
  destruct Hvalid as (H0 & Hlt & Hc).
  destruct (advance_keeps (channel state)) as (Hcount & _).
  destruct (decide (index (channel state) = count (channel state) - 1)) as [He | Hn].
  - destruct (advance_exhausted _ He) as [Hi Hs].
    unfold valid_channel. simpl. rewrite Hi, Hs, Hcount. repeat split; intros; lia.
  - destruct (advance_step _ Hn) as [Hi Hs].
    unfold valid_channel. simpl. rewrite Hi, Hs, Hcount. repeat split; intros; lia.
Qed.

(** ** The attachment address *)

(** [rounds || 81]: zero rounds are read as no rounds given. *)
Lemma hash_zero_rounds (data : string) : hash data 0 = hash data 81.
Proof. reflexivity. Qed.

(** C7. The address is a function of root, mode and rounds alone: in public
    mode it is the root itself (deriving again changes nothing), in private
    and restricted mode it is the tryte encoding of the hash, at the given
    number of rounds, of the trit encoding of the root ([create] hashes at 81
    rounds, which is also what [fetchSingle] uses when no rounds are given),
    and equal inputs give equal addresses. *)
Theorem address_derivation (root : string) (rounds : Z) (Hrounds : rounds ≠ 0) :
  (create_address (JStr "public") root = root
   ∧ ∀ r, fetchSingle_address root (JStr "public") r = root
          ∧ fetchSingle_address (fetchSingle_address root (JStr "public") r) (JStr "public") r
            = fetchSingle_address root (JStr "public") r)
  ∧ (∀ mode0, mode0 = JStr "private" ∨ mode0 = JStr "restricted" →
       fetchSingle_address root mode0 (Some rounds)
       = converter_trytes (Encryption_hash rounds (converter_trits root))
       ∧ fetchSingle_address root mode0 None
         = converter_trytes (Encryption_hash 81 (converter_trits root))
       ∧ create_address mode0 root
         = converter_trytes (Encryption_hash 81 (converter_trits root)))
  ∧ (∀ state message0 mam,
       Mam_createMessage (seed state) message0 (side_key (channel state)) (channel state)
       = Normal mam →
       ∃ created, create state message0 = Normal created
         ∧ Created.address created
           = create_address (mode (channel state)) (Created.root created))
  ∧ (∀ root' mode0 mode' r r',
       root = root' → mode0 = mode' → r = r' →
       fetchSingle_address root mode0 r = fetchSingle_address root' mode' r'
       ∧ create_address mode0 root = create_address mode' root').
Proof.
  split; [| split; [| split]].
  - split; [reflexivity | intros r; split; reflexivity].
  - intros mode0 [-> | ->]; unfold fetchSingle_address, create_address, hash; simpl;
      rewrite (proj2 (Z.eqb_neq _ _) Hrounds); auto.
  - intros state message0 mam Hmam. eexists. split; [by apply create_returns |].
    reflexivity.
  - intros root' mode0 mode' r r' -> -> ->. split; reflexivity.
Qed.

(** ** decode and fetchSingle *)

Lemma decode_cases (payload : string) (sidekey : jsval) (root : string) :
  match Mam_decodeMessage payload (side_key_of sidekey) root with
  | Normal _ => decode payload sidekey root = Normal None
  | Throw e => decode payload sidekey root = Throw e
  end.
Proof.
  unfold decode. simpl. destruct (Mam_decodeMessage _ _ _); reflexivity.
Qed.

Lemma try_body_raises (message0 : string) (sidekey : jsval) (root : string) :
  ∃ e, (d ← decode message0 sidekey root; destructure d) = Throw e.
Proof.
  pose proof (decode_cases message0 sidekey root) as H.
  destruct (Mam_decodeMessage _ _ _); rewrite H; simpl; eauto.
Qed.

Lemma fetchSingle_loop_logs (messagesGen : list string) (sidekey : jsval) (root : string)
    (log : list console_entry) :
  ∃ errors,
    fetchSingle_loop messagesGen sidekey root log
    = (log ++ map (console_error "failed to parse: ") errors, None)
    ∧ length errors = length messagesGen.
Proof.
  revert log. induction messagesGen as [|m rest IH]; intros log.
  - exists []. simpl. by rewrite app_nil_r.
  - destruct (try_body_raises m sidekey root) as [e He].
    destruct (IH (log ++ [console_error "failed to parse: " e])) as (errors & Hl & Hn).
    exists (e :: errors). simpl. rewrite He, Hl, <- app_assoc. simpl.
    split; [reflexivity | by rewrite Hn].
Qed.

(** C6. [decode] never hands back what the codec decoded: it returns
    [undefined] whenever the codec returns (and raises when the codec
    raises); destructuring that [undefined] raises, so for every candidate
    message the body of the [try] raises and is logged, and [fetchSingle]
    resolves to [undefined] (or is rejected by the ledger client), never to a
    decoded payload. *)
Theorem decode_returns_undefined (payload : string) (sidekey : jsval) (root : string)
    (messagesGen : list string) (mode0 : jsval) (rounds : option Z) :
  match Mam_decodeMessage payload (side_key_of sidekey) root with
  | Normal _ => decode payload sidekey root = Normal None
  | Throw e => decode payload sidekey root = Throw e
  end
  ∧ (∃ e, destructure None = Throw e)
  ∧ (∃ e, (d ← decode payload sidekey root; destructure d) = Throw e)
  ∧ (∃ errors,
       fetchSingle_loop messagesGen sidekey root []
       = (map (console_error "failed to parse: ") errors, None)
       ∧ length errors = length messagesGen)
  ∧ match hashes ← findTransactions [fetchSingle_address root mode0 rounds];
          txHashesToMessages hashes with
    | Normal candidates =>
        outcome (fetchSingle root mode0 sidekey rounds) = Normal None
        ∧ ∃ errors,
            console (fetchSingle root mode0 sidekey rounds)
            = map (console_error "failed to parse: ") errors
            ∧ length errors = length candidates
    | Throw e => outcome (fetchSingle root mode0 sidekey rounds) = Throw e
    end.
Proof.
  split; [apply decode_cases |].
  split; [simpl; eauto |].
  split; [apply try_body_raises |].
  split; [apply (fetchSingle_loop_logs messagesGen sidekey root []) |].
  unfold fetchSingle.
  destruct (_ ← findTransactions _; txHashesToMessages _) as [candidates | e];
    simpl; [| reflexivity].
  destruct (fetchSingle_loop_logs candidates sidekey root []) as (errors & -> & Hn).
  simpl. eauto.
Qed.

(** ** Fragment reassembly *)

Lemma recorded_insert (bundles : Bundles) (b b' : string) (l : list fragment) :
  recorded (<[b := l]> bundles) b' = if decide (b = b') then l else recorded bundles b'.
Proof. unfold recorded. rewrite lookup_insert. by destruct (decide (b = b')). Qed.

Lemma recorded_delete (bundles : Bundles) (b b' : string) :
  recorded (delete b bundles) b' = if decide (b = b') then [] else recorded bundles b'.
Proof. unfold recorded. rewrite lookup_delete. by destruct (decide (b = b')). Qed.

(** A transaction whose bundle already has a buffer is pushed behind what
    the buffer holds. *)
Lemma processTx_own (bundles : Bundles) (txo : Txo.t) (l : list fragment) :
  bundles !! Txo.bundle txo = Some l →
  processTx bundles txo
  = let pushed := l ++ [entry_of txo] in
    if Z.of_nat (length pushed) =? Txo.lastIndex txo + 1
    then Normal (delete (Txo.bundle txo) bundles,
                 Some (reduce_contents (Array_sort comparator pushed)))
    else Normal (<[Txo.bundle txo := pushed]> bundles, None).
Proof.
  intros Hl. unfold processTx, js_in. rewrite Hl.
  rewrite bool_decide_eq_true_2 by eauto. reflexivity.
Qed.

Lemma processTx_new (bundles : Bundles) (txo : Txo.t) :
  bundles !! Txo.bundle txo = None →
  inherited (Txo.bundle txo) = false →
  processTx bundles txo
  = if Z.of_nat 1 =? Txo.lastIndex txo + 1
    then Normal (delete (Txo.bundle txo) bundles,
                 Some (reduce_contents (Array_sort comparator [entry_of txo])))
    else Normal (<[Txo.bundle txo := [entry_of txo]]> bundles, None).
Proof.
  intros Hl Hn. unfold processTx, js_in. rewrite Hl, Hn.
  rewrite bool_decide_eq_false_2 by (intros [? ?]; discriminate). reflexivity.
Qed.

Lemma processTx_inherited (bundles : Bundles) (txo : Txo.t) :
  bundles !! Txo.bundle txo = None →
  inherited (Txo.bundle txo) = true →
  processTx bundles txo = Throw (TypeError "bundles[bundle].push is not a function").
Proof.
  intros Hl Hn. unfold processTx, js_in. rewrite Hl, Hn, orb_true_r. reflexivity.
Qed.

Lemma processTx_recorded (bundles : Bundles) (txo : Txo.t) :
  not_inherited txo →
  processTx bundles txo
  = let pushed := recorded bundles (Txo.bundle txo) ++ [entry_of txo] in
    if Z.of_nat (length pushed) =? Txo.lastIndex txo + 1
    then Normal (delete (Txo.bundle txo) bundles,
                 Some (reduce_contents (Array_sort comparator pushed)))
    else Normal (<[Txo.bundle txo := pushed]> bundles, None).
Proof.
  intros Hn. unfold recorded.
  destruct (bundles !! Txo.bundle txo) as [l|] eqn:Hl.
  - by rewrite (processTx_own _ _ _ Hl).
  - by rewrite (processTx_new _ _ Hl Hn).
Qed.

(** The buffer of one bundle after a transaction, whatever the bundle. *)
Lemma processTx_pending (bundles : Bundles) (txo : Txo.t) :
  not_inherited txo →
  ∃ bundles' item,
    processTx bundles txo = Normal (bundles', item)
    ∧ ∀ b, recorded bundles' b = pending_from b (recorded bundles b) [txo].
Proof.
  intros Hn. rewrite (processTx_recorded _ _ Hn). cbv zeta.
  destruct (_ =? _) eqn:Hfull; do 2 eexists; (split; [reflexivity |]); intros b;
    cbn [pending_from].
  - rewrite recorded_delete. destruct (decide (Txo.bundle txo = b)) as [<- | Hb].
    + rewrite bool_decide_eq_true_2 by done. by rewrite Hfull.
    + by rewrite bool_decide_eq_false_2.
  - rewrite recorded_insert. destruct (decide (Txo.bundle txo = b)) as [<- | Hb].
    + rewrite bool_decide_eq_true_2 by done. by rewrite Hfull.
    + by rewrite bool_decide_eq_false_2.
Qed.

Lemma pending_from_app (b : string) (waiting : list fragment) (xs ys : list Txo.t) :
  pending_from b waiting (xs ++ ys) = pending_from b (pending_from b waiting xs) ys.
Proof.
  revert waiting. induction xs as [|x xs IH]; intros waiting; simpl; [reflexivity |].
  destruct (bool_decide _); apply IH.
Qed.

Lemma map_processTx_app (bundles : Bundles) (xs ys : list Txo.t) :
  map_processTx bundles (xs ++ ys)
  = r1 ← map_processTx bundles xs;
    r2 ← map_processTx r1.1 ys;
    mret (r2.1, r1.2 ++ r2.2).
Proof.
  revert bundles. induction xs as [|x xs IH]; intros bundles; simpl.
  - destruct (map_processTx bundles ys) as [[? ?] | ?]; reflexivity.
  - destruct (processTx bundles x) as [[b1 i1] | e]; simpl; [| reflexivity].
    rewrite IH. destruct (map_processTx b1 xs) as [[b2 i2] | e]; simpl; [| reflexivity].
    destruct (map_processTx b2 ys) as [[? ?] | ?]; reflexivity.
Qed.

(** The whole sequence is processed, one item per transaction, and the
    buffer of each bundle is what that bundle's own transactions leave. *)
Lemma map_processTx_pending (bundles : Bundles) (objs : list Txo.t) :
  Forall not_inherited objs →
  ∃ bundles' items,
    map_processTx bundles objs = Normal (bundles', items)
    ∧ length items = length objs
    ∧ ∀ b, recorded bundles' b = pending_from b (recorded bundles b) objs.
Proof.
  intros Hnames. revert bundles.
  induction Hnames as [|txo rest Hn _ IH]; intros bundles.
  - exists bundles, []. repeat split.
  - destruct (processTx_pending bundles txo Hn) as (b1 & i1 & H1 & Hrec1).
    destruct (IH b1) as (b2 & i2 & H2 & Hlen & Hrec2).
    exists b2, (i1 :: i2). cbn [map_processTx]. rewrite H1. simpl. rewrite H2. simpl.
    repeat split; [by rewrite Hlen |].
    intros b. rewrite Hrec2, Hrec1.
    symmetry. apply (pending_from_app b _ [txo] rest).
Qed.

Lemma pending_from_fewer (b : string) (n : Z) (objs : list Txo.t) (waiting : list fragment) :
  (∀ t, t ∈ objs → Txo.bundle t = b → Txo.lastIndex t = n) →
  Z.of_nat (length waiting + length (fragments_of b objs)) < n + 1 →
  pending_from b waiting objs = waiting ++ (entry_of <$> fragments_of b objs).
Proof.
  revert waiting. induction objs as [|txo rest IH]; intros waiting Hlast Hfew.
  - simpl. by rewrite app_nil_r.
  - simpl. unfold fragments_of in *. case_bool_decide as Hb.
    + rewrite filter_cons_True in * by assumption. simpl in Hfew.
      rewrite (Hlast txo) by (assumption || apply list_elem_of_here).
      rewrite (proj2 (Z.eqb_neq _ _)) by (rewrite length_app; simpl; lia).
      rewrite IH.
      * by rewrite <- app_assoc.
      * intros t Ht. apply Hlast. by apply list_elem_of_further.
      * rewrite length_app. simpl. lia.
    + rewrite filter_cons_False in * by assumption.
      apply IH; [| assumption].
      intros t Ht. apply Hlast. by apply list_elem_of_further.
Qed.

Lemma fragments_of_middle (b : string) (pre post : list Txo.t) (txo : Txo.t) :
  Txo.bundle txo = b →
  fragments_of b (pre ++ txo :: post) = fragments_of b pre ++ txo :: fragments_of b post.
Proof.
  intros Hb. unfold fragments_of. by rewrite filter_app, filter_cons_True.
Qed.

(** C2, as the code has it. For every sequence of transactions (bundle
    identifiers being no inherited property names) each transaction is
    processed, and the payload of its bundle is emitted at it exactly when,
    with its fragment appended, the number of entries recorded for the bundle
    since the bundle was last emitted, repeated positions counted, equals its
    [lastIndex + 1]. In particular, when the transactions of a bundle all
    declare [lastIndex = n] and fewer than [n + 1] of them are in the
    sequence, none of them emits, however many transactions of other bundles
    are in between, and all their fragments wait in the buffer. *)
Theorem emitted_iff_entry_count (pre post : list Txo.t) (txo : Txo.t)
    (Hnames : Forall not_inherited (pre ++ txo :: post)) :
  ∃ bundles items,
    map_processTx ∅ (pre ++ txo :: post) = Normal (bundles, items)
    ∧ length items = length (pre ++ txo :: post)
    ∧ (let pushed := pending_from (Txo.bundle txo) [] pre ++ [entry_of txo] in
       (Z.of_nat (length pushed) = Txo.lastIndex txo + 1 →
        items !! length pre
        = Some (Some (reduce_contents (Array_sort comparator pushed))))
       ∧ (Z.of_nat (length pushed) ≠ Txo.lastIndex txo + 1 →
          items !! length pre = Some None))
    ∧ ∀ n,
        (∀ t, t ∈ pre ++ txo :: post → Txo.bundle t = Txo.bundle txo → Txo.lastIndex t = n) →
        Z.of_nat (length (fragments_of (Txo.bundle txo) (pre ++ txo :: post))) < n + 1 →
        items !! length pre = Some None
        ∧ recorded bundles (Txo.bundle txo)
          = entry_of <$> fragments_of (Txo.bundle txo) (pre ++ txo :: post).
Proof.
  pose proof Hnames as Hall.
  apply Forall_app in Hnames as [Hpre Hrest].
  apply Forall_cons in Hrest as [Htxo Hpost].
  destruct (map_processTx_pending ∅ pre Hpre) as (b1 & i1 & H1 & Hlen1 & Hrec1).
  destruct (map_processTx_pending ∅ _ Hall) as (b3 & i3 & H3 & Hlen3 & Hrec3).
  exists b3, i3. split; [assumption |]. split; [assumption |].
  assert (Hitem : ∃ b2 rest,
    i3 = i1 ++ (if Z.of_nat (length (pending_from (Txo.bundle txo) [] pre ++ [entry_of txo]))
                   =? Txo.lastIndex txo + 1
                then Some (reduce_contents (Array_sort comparator
                       (pending_from (Txo.bundle txo) [] pre ++ [entry_of txo])))
                else None) :: rest
    ∧ map_processTx b2 post = Normal (b3, rest)).
  { rewrite map_processTx_app, H1 in H3. cbn [mbind completion_bind fst snd] in H3.
    cbn [map_processTx] in H3. rewrite (processTx_recorded _ _ Htxo) in H3.
    rewrite Hrec1 in H3. cbv zeta in H3. unfold recorded at 1 2 3 in H3.
    rewrite lookup_empty in H3. cbn [default] in H3.
    destruct (_ =? _); cbn [mbind completion_bind fst snd] in H3;
      destruct (map_processTx _ post) as [[b4 i4] | e] eqn:H4;
      cbn [mbind completion_bind mret completion_ret fst snd] in H3;
      try discriminate; injection H3 as <- <-; eauto. }
  destruct Hitem as (b2 & rest & -> & Hpost').
  assert (Hat : ∀ x, (i1 ++ x :: rest) !! length pre = Some x).
  { intros x. rewrite <- Hlen1. by rewrite list_lookup_middle. }
  split.
  - cbv zeta. rewrite Hat. split; intros Hcount.
    + by rewrite (proj2 (Z.eqb_eq _ _) Hcount).
    + by rewrite (proj2 (Z.eqb_neq _ _) Hcount).
  - intros n Hlast Hfew.
    rewrite (fragments_of_middle _ _ _ _ eq_refl) in Hfew.
    rewrite length_app in Hfew. simpl in Hfew.
    assert (Hwait : pending_from (Txo.bundle txo) [] pre
                    = entry_of <$> fragments_of (Txo.bundle txo) pre).
    { rewrite (pending_from_fewer _ n); [reflexivity | |simpl; lia].
      intros t Ht. apply Hlast. apply elem_of_app. by left. }
    split.
    + rewrite Hat, Hwait. rewrite (Hlast txo) by (done || (apply elem_of_app; right; left)).
      rewrite (proj2 (Z.eqb_neq _ _)); [reflexivity |].
      rewrite length_app, length_fmap. simpl. lia.
    + rewrite Hrec3. unfold recorded. rewrite lookup_empty. cbn [default].
      rewrite (pending_from_fewer _ n); [reflexivity | assumption |].
      rewrite (fragments_of_middle _ _ _ _ eq_refl), length_app. simpl. lia.
Qed.

(** C4, as the code has it. A fragment for a position the buffer of its
    bundle already holds is pushed behind the entries that are there: the
    earlier entry stays with its content, the buffer grows by one, and (until
    the bundle is emitted) it holds two entries for that position. *)
Theorem duplicate_position_is_appended (bundles : Bundles) (txo : Txo.t)
    (l : list fragment) (old : string)
    (Hbuffer : bundles !! Txo.bundle txo = Some l)
    (Hrecorded : (Txo.currentIndex txo, old) ∈ l) :
  let pushed := l ++ [entry_of txo] in
  processTx bundles txo
  = (if Z.of_nat (length pushed) =? Txo.lastIndex txo + 1
     then Normal (delete (Txo.bundle txo) bundles,
                  Some (reduce_contents (Array_sort comparator pushed)))
     else Normal (<[Txo.bundle txo := pushed]> bundles, None))
  ∧ (Txo.currentIndex txo, old) ∈ pushed
  ∧ pushed !! length l = Some (entry_of txo)
  ∧ length pushed = S (length l)
  ∧ ¬ NoDup (pushed.*1)
  ∧ (Z.of_nat (length pushed) ≠ Txo.lastIndex txo + 1 →
     ∃ bundles',
       processTx bundles txo = Normal (bundles', None)
       ∧ recorded bundles' (Txo.bundle txo) = pushed).
Proof.
  cbv zeta. split; [by apply processTx_own |].
  split; [apply elem_of_app; by left |].
  split; [by rewrite list_lookup_middle |].
  split; [rewrite length_app; simpl; lia |].
  split.
  - rewrite fmap_app. intros Hnd. apply NoDup_app in Hnd as (_ & Hdisj & _).
    apply (Hdisj (Txo.currentIndex txo)).
    + apply list_elem_of_fmap. by exists (Txo.currentIndex txo, old).
    + simpl. left.
  - intros Hcount. rewrite (processTx_own _ _ _ Hbuffer). cbv zeta.
    rewrite (proj2 (Z.eqb_neq _ _) Hcount). eexists. split; [reflexivity |].
    rewrite recorded_insert. by rewrite decide_True.
Qed.

(** ** The traversal loop *)

Section Chain.

Variables (ctx : Context) (mode0 : Mode) (sidekey : jsval) (callback : bool).
Variables (roots payloads : nat → string) (k : nat).

Hypothesis Hchain : ∀ i, (i < k)%nat →
  ∃ m, Reader_next ctx i mode0 (roots i) (js_or sidekey (JStr "")) = Normal m
       ∧ hasMessage m = Some (yields (roots (S i)) (payloads i)).

(** After [d] reads that yield a message the loop stands at the root the
    last message points to, with the payloads appended. *)
Lemma fetch_loop_prefix (d j fuel : nat) (acc calls : list string) :
  (j + d)%nat = k →
  fetch_loop (d + fuel) ctx mode0 sidekey callback
    {| messages := acc; nextRoot := roots j; reads := j; callback_calls := calls |}
  = fetch_loop fuel ctx mode0 sidekey callback
      {| messages := acc ++ (payloads <$> seq j d); nextRoot := roots k; reads := k;
         callback_calls := if callback then calls ++ (payloads <$> seq j d) else calls |}.
Proof.
  revert j acc calls. induction d as [|d IH]; intros j acc calls Hk.
  - replace j with k by lia. simpl. rewrite !app_nil_r. by destruct callback.
  - destruct (Hchain j ltac:(lia)) as (m & Hread & Hhas).
    cbn [Nat.add fetch_loop reads nextRoot messages callback_calls].
    rewrite Hread, Hhas. cbn [yields message ReaderMessage.payload ReaderMessage.nextRoot].
    rewrite (IH (S j)) by lia. cbn [seq fmap list_fmap].
    rewrite <- !app_assoc. by destruct callback; rewrite <- ?app_assoc.
Qed.

End Chain.

(** C5. When the reads of a chain [R0 .. Rk] yield a message pointing to the
    next root at each of [R0 .. R(k-1)] and nothing at [Rk], the loop ends
    after [k + 1] reads and [fetch] returns the [k] payloads in chain order
    with [nextRoot = Rk], the last root read. *)
Theorem fetch_finite_chain (ctx : Context) (roots payloads : nat → string) (k : nat)
    (selectedMode sidekey : jsval) (callback : bool)
    (Hctx : createContext = Normal ctx)
    (Hchain : ∀ i, (i < k)%nat →
       ∃ m, Reader_next ctx i (reader_mode selectedMode) (roots i) (js_or sidekey (JStr ""))
            = Normal m
            ∧ hasMessage m = Some (yields (roots (S i)) (payloads i)))
    (Hend : ∃ m, Reader_next ctx k (reader_mode selectedMode) (roots k)
                   (js_or sidekey (JStr "")) = Normal m
                 ∧ hasMessage m = None) :
  ∀ fuel, (k < fuel)%nat →
    fetch fuel (roots 0%nat) selectedMode sidekey callback
    = Some {| fetched := {| console := [];
                            outcome := Normal (fetch_result (payloads <$> seq 0 k) (roots k)) |};
              observed := if callback then payloads <$> seq 0 k else [] |}.
Proof.
  intros fuel Hfuel. destruct Hend as (m & Hread & Hnone).
  unfold fetch. rewrite Hctx.
  replace fuel with (k + S (fuel - S k))%nat by lia.
  rewrite (fetch_loop_prefix ctx _ sidekey callback roots payloads k Hchain k 0) by lia.
  cbn [fetch_loop reads nextRoot]. rewrite Hread, Hnone.
  cbn [messages nextRoot callback_calls app]. reflexivity.
Qed.

(** C8, as the code has it. When a read raises after [j] reads that yielded
    a message, the loop stops there, the error is written to the console and
    the call does not return the [{ messages, nextRoot }] record of a
    completed traversal: the [j] payloads gathered so far are not returned;
    they have been passed to the callback when there is one. *)
Theorem fetch_aborted (ctx : Context) (roots payloads : nat → string) (j : nat) (e : error)
    (selectedMode sidekey : jsval) (callback : bool)
    (Hctx : createContext = Normal ctx)
    (Hchain : ∀ i, (i < j)%nat →
       ∃ m, Reader_next ctx i (reader_mode selectedMode) (roots i) (js_or sidekey (JStr ""))
            = Normal m
            ∧ hasMessage m = Some (yields (roots (S i)) (payloads i)))
    (Hraise : Reader_next ctx j (reader_mode selectedMode) (roots j)
                (js_or sidekey (JStr "")) = Throw e) :
  ∀ fuel, (j < fuel)%nat →
    ∃ out,
      fetch fuel (roots 0%nat) selectedMode sidekey callback = Some out
      ∧ console (fetched out) = [console_error "failed to parse: " e]
      ∧ returned_messages (fetched out) = None
      ∧ observed out = (if callback then payloads <$> seq 0 j else []).
Proof.
  intros fuel Hfuel. unfold fetch. rewrite Hctx.
  replace fuel with (j + S (fuel - S j))%nat by lia.
  rewrite (fetch_loop_prefix ctx _ sidekey callback roots payloads j Hchain j 0) by lia.
  cbn [fetch_loop reads nextRoot]. rewrite Hraise.
  eexists. split; [reflexivity |]. repeat split.
Qed.

(** Without a side key an accepted call changes the mode alone. *)
Lemma changeMode_empty_like (state : State) (mode0 sidekey : jsval) :
  truthy sidekey = false →
  mode0 = JStr "public" ∨ mode0 = JStr "private" →
  changeMode state mode0 sidekey
  = {| cm_state := set_channel state (set_mode (channel state) mode0);
       cm_console := [];
       cm_return := returns_state |}.
Proof. intros Hk [-> | ->]; unfold changeMode; rewrite Hk; reflexivity. Qed.

(** ** Publications along a channel *)

Lemma publishes_inv (s s' : State) :
  publishes s s' →
  ∃ v, s' = set_channel s (set_next_root (advance (channel s)) v).
Proof.
  intros (message0 & created & Hcreate & <-). unfold create in Hcreate.
  destruct (Mam_createMessage _ _ _ _) as [mam | e]; simpl in Hcreate; [| discriminate].
  injection Hcreate as <-. simpl. eauto.
Qed.

Lemma leaf_advance (c : Channel) :
  leaf (advance c) - leaf c
  = if index c =? count c - 1 then next_count c - count c + 1 else 1.
Proof.
  unfold leaf, advance. destruct (index c =? count c - 1) eqn:He; simpl.
  - apply Z.eqb_eq in He. lia.
  - lia.
Qed.

(** X1. A publication moves the signing position [start + index] by 1 inside
    a tree, and by [next_count - count + 1] from the last leaf of a tree:
    while [count <= next_count] the position grows and the cursor stays
    valid, but from the last leaf of a tree larger than [next_count] it
    falls back on a position already used. *)
Theorem create_moves_leaf (state : State) (message0 : string) (mam : MamMessage.t)
    (Hvalid : valid_channel (channel state))
    (Hmam : Mam_createMessage (seed state) message0 (side_key (channel state)) (channel state)
            = Normal mam) :
  ∃ created,
    create state message0 = Normal created
    ∧ let c := channel state in
      let c' := channel (Created.state created) in
      leaf c' - leaf c = (if index c =? count c - 1 then next_count c - count c + 1 else 1)
      ∧ (count c ≤ next_count c →
         leaf c < leaf c' ∧ valid_channel c' ∧ count c' ≤ next_count c')
      ∧ (0 ≤ next_count c < count c → index c = count c - 1 →
         start c ≤ leaf c' ≤ leaf c).
Proof.
  eexists. split; [by apply create_returns |]. simpl.
  change (leaf (set_next_root ?c ?v)) with (leaf c).
  pose proof (leaf_advance (channel state)) as Hleaf.
  destruct Hvalid as (H0 & Hlt & Hc).
  destruct (advance_keeps (channel state)) as (Hcount & Hnext & _).
  split; [exact Hleaf |]. split.
  - intros Hsize. unfold valid_channel. simpl. rewrite Hcount, Hnext.
    destruct (decide (index (channel state) = count (channel state) - 1)) as [He | Hn].
    + destruct (advance_exhausted _ He) as [Hi Hs].
      rewrite (proj2 (Z.eqb_eq _ _) He) in Hleaf. rewrite Hi. lia.
    + destruct (advance_step _ Hn) as [Hi Hs].
      rewrite (proj2 (Z.eqb_neq _ _) Hn) in Hleaf. rewrite Hi. lia.
  - intros Hsmall He. rewrite (proj2 (Z.eqb_eq _ _) He) in Hleaf.
    unfold leaf in *.
    destruct (advance_exhausted _ He) as [Hi Hs]. rewrite Hi, Hs in *. lia.
Qed.

Lemma publishes_leaf (s s' : State) :
  valid_channel (channel s) →
  count (channel s) ≤ next_count (channel s) →
  publishes s s' →
  leaf (channel s) < leaf (channel s')
  ∧ valid_channel (channel s')
  ∧ count (channel s') = count (channel s)
  ∧ next_count (channel s') = next_count (channel s)
  ∧ seed s' = seed s
  ∧ mode (channel s') = mode (channel s)
  ∧ side_key (channel s') = side_key (channel s).
Proof.
  intros (H0 & Hlt & Hc) Hsize Hp. destruct (publishes_inv _ _ Hp) as [v ->]. simpl.
  change (leaf (set_next_root ?c ?v)) with (leaf c).
  pose proof (leaf_advance (channel s)) as Hleaf.
  destruct (advance_keeps (channel s)) as (Hcount & Hnext & Hmode & Hkey & _).
  unfold valid_channel. simpl. rewrite Hcount, Hnext.
  destruct (decide (index (channel s) = count (channel s) - 1)) as [He | Hn].
  - destruct (advance_exhausted _ He) as [Hi Hs].
    rewrite (proj2 (Z.eqb_eq _ _) He) in Hleaf. rewrite Hi. repeat split; auto; lia.
  - destruct (advance_step _ Hn) as [Hi Hs].
    rewrite (proj2 (Z.eqb_neq _ _) Hn) in Hleaf. rewrite Hi. repeat split; auto; lia.
Qed.

(** X2. On a channel with a valid cursor and [count <= next_count], any
    sequence of one or more publications ends on a signing position beyond
    the one it started from, so no position is signed twice; the cursor
    stays valid and seed, mode, side key and tree sizes are kept. *)
Theorem publications_use_fresh_leaves (s s' : State)
    (Hvalid : valid_channel (channel s))
    (Hsize : count (channel s) ≤ next_count (channel s))
    (Hpath : tc publishes s s') :
  leaf (channel s) < leaf (channel s')
  ∧ valid_channel (channel s')
  ∧ count (channel s') = count (channel s)
  ∧ next_count (channel s') = next_count (channel s)
  ∧ seed s' = seed s
  ∧ mode (channel s') = mode (channel s)
  ∧ side_key (channel s') = side_key (channel s).
Proof.
  induction Hpath as [s s' Hp | s s1 s' Hp Hrest IH].
  - by apply publishes_leaf.
  - destruct (publishes_leaf _ _ Hvalid Hsize Hp)
      as (Hl & Hv & Hc & Hn & Hseed & Hmode & Hkey).
    destruct IH as (Hl' & Hv' & Hc' & Hn' & Hseed' & Hmode' & Hkey');
      [assumption | lia |].
    split; [lia |]. split; [exact Hv' |]. repeat split; congruence.
Qed.

(** X3. The [n]-th publication on a channel made by [init] signs with
    position [n]: after [n] publications the cursor is at [start = n],
    [index = 0], in a tree of one leaf. *)
Theorem publications_from_init (seed0 : string) (security0 : option Z) (n : nat) (s' : State)
    (Hpath : nsteps publishes n (init seed0 security0) s') :
  start (channel s') = Z.of_nat n
  ∧ index (channel s') = 0
  ∧ count (channel s') = 1
  ∧ next_count (channel s') = 1
  ∧ leaf (channel s') = Z.of_nat n
  ∧ seed s' = seed0.
Proof.
  assert (Hgen : ∀ s, nsteps publishes n s s' →
            index (channel s) = 0 → count (channel s) = 1 → next_count (channel s) = 1 →
            start (channel s') = start (channel s) + Z.of_nat n
            ∧ index (channel s') = 0 ∧ count (channel s') = 1
            ∧ next_count (channel s') = 1 ∧ seed s' = seed s).
  { clear Hpath. intros s Hsteps.
    induction Hsteps as [s | k s s1 s2 Hp Hrest IH]; intros Hi Hc Hn.
    - repeat split; auto; lia.
    - destruct (publishes_inv _ _ Hp) as [v ->].
      assert (He : index (channel s) = count (channel s) - 1) by lia.
      destruct (advance_exhausted _ He) as [Hi' Hs'].
      destruct (advance_keeps (channel s)) as (Hcount & Hnext & _).
      destruct IH as (IHs & IHi & IHc & IHn & IHseed); simpl; try congruence.
      simpl in IHs, IHseed. rewrite Hs' in IHs. repeat split; auto; lia. }
  destruct (Hgen _ Hpath) as (Hs & Hi & Hc & Hn & Hseed); try reflexivity.
  simpl in Hs, Hseed. unfold leaf. repeat split; auto; lia.
Qed.

(** ** Side keys and addresses *)

Lemma side_key_of_truthy (sidekey : jsval) :
  truthy sidekey = true → truthy (side_key_of sidekey) = true.
Proof.
  destruct sidekey as [| | b | z | s | id]; simpl; try done.
  intros Hs. apply negb_true_iff, bool_decide_eq_false in Hs.
  apply negb_true_iff, bool_decide_eq_false. rewrite padEnd_char.
  destruct s; [done | discriminate].
Qed.

Lemma padEnd_long (s : string) (n : nat) (filler : string) :
  (n ≤ String.length s)%nat → padEnd s n filler = s.
Proof.
  intros Hlen. unfold padEnd. case_bool_decide; [reflexivity |].
  replace (n - String.length s)%nat with 0%nat by lia. simpl.
  induction s as [|c s IH]; [reflexivity |].
  change (String c s +:+ "") with (String c (s +:+ "")).
  f_equal. clear IH Hlen. induction s as [|c' s IH]; [reflexivity |].
  change (String c' s +:+ "") with (String c' (s +:+ "")). by rewrite IH.
Qed.

Lemma side_key_of_idempotent (sidekey : jsval) :
  side_key_of (side_key_of sidekey) = side_key_of sidekey.
Proof.
  destruct sidekey as [| | b | z | s | id]; simpl; try reflexivity.
  f_equal. apply padEnd_long.
  destruct (decide (String.length s ≤ 81)%nat) as [Hle | Hgt].
  - by rewrite padEnd_char_length.
  - rewrite padEnd_long; lia.
Qed.

(** X4. A supplied string side key is stored whole: the stored key is the
    given key followed by ['9'] up to 81 characters, and a key of 81
    characters or more is stored as it is, without being cut. *)
Theorem changeMode_stores_whole_key (state : State) (mode0 : jsval) (s : string)
    (Hmode : recognised mode0)
    (Hsupplied : truthy (JStr s) = true) :
  ∃ stored,
    side_key (channel (cm_state (changeMode state mode0 (JStr s)))) = JStr stored
    ∧ stored = s +:+ repeat_string "9" (81 - String.length s)
    ∧ String.length stored = (String.length s `max` 81)%nat
    ∧ ((81 ≤ String.length s)%nat → stored = s).
Proof.
  rewrite changeMode_accepts by assumption. simpl. eexists. split; [reflexivity |].
  split; [apply padEnd_char |]. split.
  - rewrite padEnd_char, length_append, length_repeat_char. lia.
  - apply padEnd_long.
Qed.

(** X5. A restricted channel always has a side key: when the channel is
    public, private or holds a side key, it still is so after any call of
    [changeMode], accepted or not, and after any publication. *)
Theorem restricted_channel_is_keyed (state : State) (Hkeyed : keyed (channel state)) :
  (∀ mode0 sidekey, keyed (channel (cm_state (changeMode state mode0 sidekey))))
  ∧ (∀ s', publishes state s' → keyed (channel s')).
Proof.
  split.
  - intros mode0 sidekey.
    destruct (decide (recognised mode0)) as [Hrec | Hrec];
      [| by rewrite changeMode_unrecognised].
    destruct (truthy sidekey) eqn:Hk.
    + rewrite changeMode_accepts by assumption. intros _. simpl.
      by apply side_key_of_truthy.
    + destruct Hrec as [-> | [-> | ->]].
      * rewrite changeMode_empty_like; [discriminate | assumption | by left].
      * rewrite changeMode_empty_like; [discriminate | assumption | by right].
      * by rewrite changeMode_restricted_no_key.
  - intros s' Hp. destruct (publishes_inv _ _ Hp) as [v ->]. unfold keyed. simpl.
    destruct (advance_keeps (channel state)) as (_ & _ & Hmode & Hkey & _).
    rewrite Hmode, Hkey. exact Hkeyed.
Qed.

(** X6. The key [changeMode] stores and the key as it was given are the same
    key to [decode]: the stored key is the padded one, and padding it again
    changes nothing, so the codec is called with the same key either way. *)
Theorem decode_accepts_stored_key (state : State) (mode0 sidekey : jsval)
    (payload root : string)
    (Hmode : recognised mode0)
    (Hsupplied : truthy sidekey = true) :
  side_key (channel (cm_state (changeMode state mode0 sidekey))) = side_key_of sidekey
  ∧ decode payload (side_key (channel (cm_state (changeMode state mode0 sidekey)))) root
    = decode payload sidekey root.
Proof.
  rewrite changeMode_accepts by assumption. simpl. split; [reflexivity |].
  unfold decode. by rewrite side_key_of_idempotent.
Qed.

(** X7. In each of the three modes [fetchSingle] with the rounds left out
    (or given as 81, or as 0) looks a message up at the address [create]
    attaches it to. *)
Theorem reader_finds_attachment_address (root : string) (mode0 : jsval)
    (Hmode : recognised mode0) :
  fetchSingle_address root mode0 None = create_address mode0 root
  ∧ fetchSingle_address root mode0 (Some 81) = create_address mode0 root
  ∧ fetchSingle_address root mode0 (Some 0) = create_address mode0 root.
Proof. destruct Hmode as [-> | [-> | ->]]; repeat split. Qed.

(** ** More on the traversal loop *)

Lemma fetch_loop_calls (ctx : Context) (mode0 : Mode) (sidekey : jsval) (callback : bool)
    (fuel : nat) (v : fetch_vars) (r : completion fetch_vars) (calls : list string) :
  fetch_loop fuel ctx mode0 sidekey callback v = Some (r, calls) →
  ∃ new,
    calls = (if callback then callback_calls v ++ new else callback_calls v)
    ∧ match r with
      | Normal v' => messages v' = messages v ++ new
      | Throw _ => True
      end.
Proof.
  revert v. induction fuel as [|fuel IH]; intros v Hrun; [discriminate |].
  cbn [fetch_loop] in Hrun.
  destruct (Reader_next _ _ _ _ _) as [m | e].
  - destruct (hasMessage m) as [first |].
    + destruct (IH _ Hrun) as (new & Hcalls & Hr). cbn in Hcalls, Hr.
      exists (ReaderMessage.payload (message first) :: new). split.
      * destruct callback; [by rewrite <- app_assoc in Hcalls | assumption].
      * destruct r; [by rewrite <- app_assoc in Hr | exact I].
    + injection Hrun as <- <-. exists []. rewrite !app_nil_r. by destruct callback.
  - injection Hrun as <- <-. exists []. rewrite !app_nil_r. by destruct callback.
Qed.

(** X8. Whatever the reads answer, when [fetch] returns a
    [{ messages, nextRoot }] record the callback, if there is one, has been
    called with exactly the messages returned, in the same order, and
    nothing has been written to the console. *)
Theorem fetch_callback_sees_returned_messages (fuel : nat) (root : string)
    (selectedMode sidekey : jsval) (callback : bool) (out : fetch_outcome) (ms : list string)
    (Hrun : fetch fuel root selectedMode sidekey callback = Some out)
    (Hret : returned_messages (fetched out) = Some ms) :
  observed out = (if callback then ms else [])
  ∧ console (fetched out) = [].
Proof.
  unfold fetch in Hrun. destruct createContext as [ctx | e].
  - destruct (fetch_loop _ _ _ _ _ _) as [[[v' | e] calls] |] eqn:Hloop;
      [| | discriminate]; injection Hrun as <-.
    + destruct (fetch_loop_calls _ _ _ _ _ _ _ _ Hloop) as (new & Hcalls & Hms).
      cbn in Hcalls, Hms, Hret. injection Hret as <-. subst. simpl.
      by destruct callback.
    + discriminate Hret.
  - injection Hrun as <-. discriminate Hret.
Qed.

Lemma fetch_loop_endless (ctx : Context) (mode0 : Mode) (sidekey : jsval) (callback : bool) :
  (∀ n root, ∃ m first,
     Reader_next ctx n mode0 root (js_or sidekey (JStr "")) = Normal m
     ∧ hasMessage m = Some first) →
  ∀ fuel v, fetch_loop fuel ctx mode0 sidekey callback v = None.
Proof.
  intros Hyield fuel. induction fuel as [|fuel IH]; intros v; [reflexivity |].
  cbn [fetch_loop]. destruct (Hyield (reads v) (nextRoot v)) as (m & first & -> & ->).
  apply IH.
Qed.

(** X9. On a chain without end (every read yields a message, as on a root
    whose message points back to a root of the chain) the loop of [fetch]
    does not end: no number of reads makes it return. *)
Theorem fetch_never_returns_on_endless_chain (ctx : Context) (root : string)
    (selectedMode sidekey : jsval) (callback : bool)
    (Hctx : createContext = Normal ctx)
    (Hyield : ∀ n r, ∃ m first,
       Reader_next ctx n (reader_mode selectedMode) r (js_or sidekey (JStr "")) = Normal m
       ∧ hasMessage m = Some first) :
  ∀ fuel, fetch fuel root selectedMode sidekey callback = None.
Proof.
  intros fuel. unfold fetch. rewrite Hctx.
  by rewrite fetch_loop_endless.
Qed.

(** X10. A chain of [k] messages takes [k + 1] reads: with [k] reads or
    fewer the loop of [fetch] has not ended. *)
Theorem fetch_reads_every_root (ctx : Context) (roots payloads : nat → string) (k : nat)
    (selectedMode sidekey : jsval) (callback : bool)
    (Hctx : createContext = Normal ctx)
    (Hchain : ∀ i, (i < k)%nat →
       ∃ m, Reader_next ctx i (reader_mode selectedMode) (roots i) (js_or sidekey (JStr ""))
            = Normal m
            ∧ hasMessage m = Some (yields (roots (S i)) (payloads i))) :
  ∀ fuel, (fuel ≤ k)%nat →
    fetch fuel (roots 0%nat) selectedMode sidekey callback = None.
Proof.
  intros fuel Hfuel. unfold fetch. rewrite Hctx.
  assert (Hshort : ∀ i, (i < fuel)%nat →
    ∃ m, Reader_next ctx i (reader_mode selectedMode) (roots i) (js_or sidekey (JStr ""))
         = Normal m
         ∧ hasMessage m = Some (yields (roots (S i)) (payloads i)))
    by (intros i Hi; apply Hchain; lia).
  pose proof (fetch_loop_prefix ctx _ sidekey callback roots payloads fuel Hshort
                fuel 0 0 [] [] eq_refl) as Hprefix.
  rewrite Nat.add_0_r in Hprefix. by rewrite Hprefix.
Qed.

(** ** More on reassembly *)

Lemma items_of_cons (b : string) (txo : Txo.t) (rest : list Txo.t)
    (item : option string) (items : list (option string)) :
  items_of b (txo :: rest) (item :: items)
  = if decide (Txo.bundle txo = b) then item :: items_of b rest items
    else items_of b rest items.
Proof.
  unfold items_of. cbn [zip zip_with].
  destruct (decide (Txo.bundle txo = b)) as [Hb | Hb].
  - by rewrite filter_cons_True.
  - by rewrite filter_cons_False.
Qed.

Lemma map_processTx_bundle (b : string) (objs : list Txo.t) :
  Forall not_inherited objs →
  ∀ B B' : Bundles, recorded B b = recorded B' b →
  ∃ B1 items B1' items',
    map_processTx B objs = Normal (B1, items)
    ∧ map_processTx B' (fragments_of b objs) = Normal (B1', items')
    ∧ items_of b objs items = items'
    ∧ recorded B1 b = recorded B1' b.
Proof.
  intros Hnames. induction Hnames as [|txo rest Hn _ IH]; intros B B' Hrec.
  - exists B, [], B', []. repeat split. assumption.
  - unfold fragments_of. destruct (decide (Txo.bundle txo = b)) as [Hb | Hb].
    + rewrite filter_cons_True by assumption. cbn [map_processTx].
      rewrite !(processTx_recorded _ _ Hn). cbv zeta. rewrite Hb, <- Hrec.
      destruct (_ =? _).
      * destruct (IH (delete b B) (delete b B')) as (B1 & items & B1' & items' & H1 & H2 & H3 & H4).
        { rewrite !recorded_delete. by rewrite !decide_True. }
        cbn [mbind completion_bind fst snd]. unfold fragments_of in H2. rewrite H1, H2.
        do 4 eexists. repeat split; [| exact H4].
        rewrite items_of_cons, decide_True by assumption. cbn. by rewrite H3.
      * destruct (IH (<[b := recorded B b ++ [entry_of txo]]> B)
                     (<[b := recorded B b ++ [entry_of txo]]> B'))
          as (B1 & items & B1' & items' & H1 & H2 & H3 & H4).
        { rewrite !recorded_insert. by rewrite !decide_True. }
        cbn [mbind completion_bind fst snd]. unfold fragments_of in H2. rewrite H1, H2.
        do 4 eexists. repeat split; [| exact H4].
        rewrite items_of_cons, decide_True by assumption. cbn. by rewrite H3.
    + rewrite filter_cons_False by assumption. cbn [map_processTx].
      destruct (processTx_pending B txo Hn) as (B2 & item & Hstep & Hrec2).
      rewrite Hstep. cbn [mbind completion_bind fst snd].
      destruct (IH B2 B') as (B1 & items & B1' & items' & H1 & H2 & H3 & H4).
      { rewrite Hrec2. cbn [pending_from]. by rewrite bool_decide_eq_false_2. }
      unfold fragments_of in H2. rewrite H1, H2.
      do 4 eexists. repeat split; [| exact H4].
      rewrite items_of_cons, decide_False by assumption. cbn. exact H3.
Qed.

(** X11. Bundles do not interfere: what is returned for the transactions of
    one bundle, and what is left of that bundle in the buffer, are the same
    whether its transactions are processed among those of other bundles or
    alone. *)
Theorem bundles_do_not_interfere (b : string) (objs : list Txo.t)
    (Hnames : Forall not_inherited objs) :
  ∃ B items B' items',
    map_processTx ∅ objs = Normal (B, items)
    ∧ map_processTx ∅ (fragments_of b objs) = Normal (B', items')
    ∧ items_of b objs items = items'
    ∧ recorded B b = recorded B' b.
Proof. by apply map_processTx_bundle. Qed.

Lemma chars_cons (x : fragment) (l : list fragment) :
  chars (x :: l) = (String.length x.2 + chars l)%nat.
Proof. reflexivity. Qed.

Lemma chars_app (l k : list fragment) : chars (l ++ k) = (chars l + chars k)%nat.
Proof. unfold chars. by rewrite fmap_app, sum_list_with_app. Qed.

Lemma chars_perm (l k : list fragment) : l ≡ₚ k → chars l = chars k.
Proof. intros Hp. unfold chars. by rewrite Hp. Qed.

Lemma reduce_contents_length (l : list fragment) :
  String.length (reduce_contents l) = chars l.
Proof.
  unfold reduce_contents.
  assert (Hgen : ∀ acc, String.length (fold_left (λ acc n, acc +:+ n.2) l acc)
                        = (String.length acc + chars l)%nat).
  { induction l as [|x l IH]; intros acc; cbn [fold_left].
    - change (chars []) with 0%nat. lia.
    - rewrite IH, length_append, chars_cons. lia. }
  by rewrite Hgen.
Qed.

Lemma buffered_comm (j1 j2 : string) (z1 z2 : list fragment) (y : nat) :
  (chars z1 + (chars z2 + y) = chars z2 + (chars z1 + y))%nat.
Proof. lia. Qed.

Lemma buffered_delete (B : Bundles) (b : string) :
  (buffered (delete b B) + chars (recorded B b) = buffered B)%nat.
Proof.
  unfold buffered, recorded. destruct (B !! b) as [l|] eqn:Hl.
  - rewrite (map_fold_delete_L _ _ b l B); [simpl; lia | | assumption].
    intros; apply buffered_comm; assumption.
  - rewrite delete_id by assumption. unfold chars. simpl. lia.
Qed.

Lemma buffered_insert (B : Bundles) (b : string) (l : list fragment) :
  (buffered (<[b := l]> B) + chars (recorded B b) = buffered B + chars l)%nat.
Proof.
  rewrite <- insert_delete_eq. pose proof (buffered_delete B b) as Hd.
  unfold buffered in *.
  rewrite map_fold_insert_L; [lia | | apply lookup_delete_eq].
  intros; apply buffered_comm; assumption.
Qed.

(** X12. On an engine whose sort only reorders, no character of a fragment
    is lost or doubled: the characters of the payloads emitted and of the
    fragments left in the buffer add up to the characters of the fragments
    processed. *)
Theorem reassembly_keeps_every_character (objs : list Txo.t)
    (Hnames : Forall not_inherited objs)
    (Hsort : ∀ l, Array_sort comparator l ≡ₚ l) :
  ∃ B items,
    map_processTx ∅ objs = Normal (B, items)
    ∧ (emitted_chars items + buffered B)%nat
      = sum_list ((λ txo, String.length (Txo.signatureMessageFragment txo)) <$> objs).
Proof.
  assert (Hgen : ∀ B0 : Bundles, ∃ B items,
    map_processTx B0 objs = Normal (B, items)
    ∧ (emitted_chars items + buffered B)%nat
      = (buffered B0
         + sum_list ((λ txo, String.length (Txo.signatureMessageFragment txo)) <$> objs))%nat).
  { induction Hnames as [|txo rest Hn _ IH]; intros B0.
    - exists B0, []. split; [reflexivity |]. unfold emitted_chars. simpl. lia.
    - cbn [map_processTx]. rewrite (processTx_recorded _ _ Hn). cbv zeta.
      assert (Hpushed : chars (recorded B0 (Txo.bundle txo) ++ [entry_of txo])
                        = (chars (recorded B0 (Txo.bundle txo))
                           + String.length (Txo.signatureMessageFragment txo))%nat)
        by (rewrite chars_app, chars_cons; change (chars []) with 0%nat;
            unfold entry_of; simpl; lia).
      destruct (_ =? _).
      + destruct (IH (delete (Txo.bundle txo) B0)) as (B & items & Hrun & Hsum).
        cbn [mbind completion_bind fst snd]. rewrite Hrun.
        do 2 eexists. split; [reflexivity |].
        pose proof (buffered_delete B0 (Txo.bundle txo)) as Hd.
        unfold emitted_chars in *. cbn [fst snd omap list_omap id fmap list_fmap sum_list_with].
        rewrite reduce_contents_length, (chars_perm _ _ (Hsort _)). simpl in Hsum |- *. lia.
      + destruct (IH (<[Txo.bundle txo := recorded B0 (Txo.bundle txo) ++ [entry_of txo]]> B0))
          as (B & items & Hrun & Hsum).
        cbn [mbind completion_bind fst snd]. rewrite Hrun.
        do 2 eexists. split; [reflexivity |].
        pose proof (buffered_insert B0 (Txo.bundle txo)
                      (recorded B0 (Txo.bundle txo) ++ [entry_of txo])) as Hi.
        unfold emitted_chars in *. cbn [fst snd omap list_omap id fmap list_fmap sum_list_with].
        simpl in Hsum |- *. lia. }
  destruct (Hgen ∅) as (B & items & Hrun & Hsum). exists B, items.
  split; [assumption |]. rewrite Hsum. unfold buffered. by rewrite map_fold_empty.
Qed.

Lemma full_count_div (p m : nat) : (0 < p)%nat → ((p + m) / p = 1 + m / p)%nat.
Proof.
  intros Hp. replace (p + m)%nat with (1 * p + m)%nat by lia.
  rewrite Nat.div_add_l by lia. reflexivity.
Qed.

Lemma full_count_mod (p m : nat) : ((p + m) mod p = m mod p)%nat.
Proof.
  replace (p + m)%nat with (m + 1 * p)%nat by lia. apply Nat.Div0.mod_add.
Qed.

Lemma map_processTx_counts (b : string) (n : Z) (objs : list Txo.t) :
  0 ≤ n →
  Forall not_inherited objs →
  (∀ t, t ∈ objs → Txo.bundle t = b → Txo.lastIndex t = n) →
  ∀ B0 : Bundles, (length (recorded B0 b) < Z.to_nat (n + 1))%nat →
  ∃ B items,
    map_processTx B0 objs = Normal (B, items)
    ∧ length (omap id (items_of b objs items))
      = ((length (recorded B0 b) + length (fragments_of b objs)) / Z.to_nat (n + 1))%nat
    ∧ length (recorded B b)
      = ((length (recorded B0 b) + length (fragments_of b objs)) mod Z.to_nat (n + 1))%nat.
Proof.
  intros Hn Hnames. induction Hnames as [|txo rest Hnot _ IH]; intros Hlast B0 Hw.
  - exists B0, []. split; [reflexivity |]. cbn. rewrite Nat.add_0_r.
    rewrite Nat.div_small, Nat.mod_small by assumption. by split.
  - assert (Hlast' : ∀ t, t ∈ rest → Txo.bundle t = b → Txo.lastIndex t = n)
      by (intros t Ht; apply Hlast; by apply list_elem_of_further).
    unfold fragments_of. cbn [map_processTx].
    destruct (decide (Txo.bundle txo = b)) as [Hb | Hb].
    + rewrite filter_cons_True by assumption.
      rewrite (processTx_recorded _ _ Hnot). cbv zeta.
      rewrite (Hlast txo) by (assumption || apply list_elem_of_here). rewrite Hb.
      rewrite length_app. cbn [length].
      destruct (_ =? _) eqn:Hfull.
      * apply Z.eqb_eq in Hfull.
        destruct (IH Hlast' (delete b B0)) as (B & items & Hrun & Hemit & Hleft).
        { rewrite recorded_delete, decide_True by reflexivity. simpl. lia. }
        rewrite recorded_delete, decide_True in Hemit, Hleft by reflexivity.
        cbn [mbind completion_bind fst snd]. rewrite Hrun.
        do 2 eexists. split; [reflexivity |].
        cbn [mret completion_ret fst snd].
        rewrite items_of_cons, decide_True by assumption. cbn [omap list_omap id length].
        unfold fragments_of in Hemit, Hleft. cbn [length] in Hemit, Hleft.
        replace (length (recorded B0 b) + S (length (filter (λ t, Txo.bundle t = b) rest)))%nat
          with (Z.to_nat (n + 1) + length (filter (λ t, Txo.bundle t = b) rest))%nat by lia.
        rewrite full_count_div, full_count_mod by lia.
        rewrite Hemit, Hleft. by split.
      * apply Z.eqb_neq in Hfull.
        destruct (IH Hlast' (<[b := recorded B0 b ++ [entry_of txo]]> B0))
          as (B & items & Hrun & Hemit & Hleft).
        { rewrite recorded_insert, decide_True by reflexivity.
          rewrite length_app. simpl. lia. }
        rewrite recorded_insert, decide_True, length_app in Hemit, Hleft by reflexivity.
        cbn [mbind completion_bind fst snd]. rewrite Hrun.
        do 2 eexists. split; [reflexivity |].
        cbn [mret completion_ret fst snd].
        rewrite items_of_cons, decide_True by assumption. cbn [omap list_omap id].
        unfold fragments_of in Hemit, Hleft. cbn [length] in Hemit, Hleft.
        replace (length (recorded B0 b) + S (length (filter (λ t, Txo.bundle t = b) rest)))%nat
          with (length (recorded B0 b) + 1
                + length (filter (λ t, Txo.bundle t = b) rest))%nat by lia.
        by split.
    + rewrite filter_cons_False by assumption.
      destruct (processTx_pending B0 txo Hnot) as (B2 & item & Hstep & Hrec2).
      assert (Hsame : recorded B2 b = recorded B0 b).
      { rewrite Hrec2. cbn [pending_from]. by rewrite bool_decide_eq_false_2. }
      destruct (IH Hlast' B2) as (B & items & Hrun & Hemit & Hleft);
        [by rewrite Hsame |].
      rewrite Hstep. cbn [mbind completion_bind fst snd]. rewrite Hrun.
      do 2 eexists. split; [reflexivity |].
      cbn [mret completion_ret fst snd].
      rewrite items_of_cons, decide_False by assumption.
      rewrite Hsame in Hemit, Hleft. by split.
Qed.

(** X13. When the transactions of a bundle all declare [lastIndex = n]
    ([n >= 0]), the bundle is emitted at every [(n + 1)]-th of them: after
    [m] of its transactions, however they are spread among those of other
    bundles, it has been emitted [m / (n + 1)] times and [m mod (n + 1)]
    fragments wait in the buffer. A bundle whose transactions all arrive
    [r] times is emitted [r] times. *)
Theorem bundle_emitted_every_full_count (b : string) (n : Z) (objs : list Txo.t)
    (Hn : 0 ≤ n)
    (Hnames : Forall not_inherited objs)
    (Hlast : ∀ t, t ∈ objs → Txo.bundle t = b → Txo.lastIndex t = n) :
  ∃ B items,
    map_processTx ∅ objs = Normal (B, items)
    ∧ length (omap id (items_of b objs items))
      = (length (fragments_of b objs) / Z.to_nat (n + 1))%nat
    ∧ length (recorded B b)
      = (length (fragments_of b objs) mod Z.to_nat (n + 1))%nat.
Proof.
  assert (Hempty : recorded (∅ : Bundles) b = [])
    by (unfold recorded; by rewrite lookup_empty).
  destruct (map_processTx_counts b n objs Hn Hnames Hlast ∅) as (B & items & Hrun & H1 & H2).
  - rewrite Hempty. simpl. lia.
  - exists B, items. split; [assumption |]. rewrite Hempty in H1, H2. by split.
Qed.

(** ** listen *)

Lemma fetch_completes (ctx : Context) (roots payloads : nat → string) (k : nat)
    (selectedMode sidekey : jsval) (callback : bool) (last : completion (option IteratorResult)) :
  createContext = Normal ctx →
  (∀ i, (i < k)%nat →
     ∃ m, Reader_next ctx i (reader_mode selectedMode) (roots i) (js_or sidekey (JStr ""))
          = Normal m
          ∧ hasMessage m = Some (yields (roots (S i)) (payloads i))) →
  Reader_next ctx k (reader_mode selectedMode) (roots k) (js_or sidekey (JStr "")) = last →
  match last with
  | Normal m => hasMessage m = None
  | Throw _ => True
  end →
  ∀ fuel, (k < fuel)%nat →
    fetch fuel (roots 0%nat) selectedMode sidekey callback
    = Some {| fetched :=
                match last with
                | Normal _ =>
                    {| console := [];
                       outcome := Normal (fetch_result (payloads <$> seq 0 k) (roots k)) |}
                | Throw e =>
                    {| console := [console_error "failed to parse: " e];
                       outcome := Normal fetch_undefined |}
                end;
              observed := if callback then payloads <$> seq 0 k else [] |}.
Proof.
  intros Hctx Hchain Hlast Hnone fuel Hfuel. unfold fetch. rewrite Hctx.
  replace fuel with (k + S (fuel - S k))%nat by lia.
  rewrite (fetch_loop_prefix ctx _ sidekey callback roots payloads k Hchain k 0) by lia.
  cbn [fetch_loop reads nextRoot]. rewrite Hlast.
  destruct last as [m | e]; [rewrite Hnone |]; reflexivity.
Qed.

(** X14. The timer [listen] sets fires once, after the [timeout] of the
    subscription. It reads the chain from the root of the subscription in
    mode [Old] and without a key, whatever key the subscription holds; on a
    chain of [k] messages the callback is called once, with the [k] payloads
    in chain order (with an empty array when [k] is 0). *)
Theorem listen_delivers_chain (ctx : Context) (channel0 : Subscription)
    (roots payloads : nat → string) (k : nat)
    (Hctx : createContext = Normal ctx)
    (Hroot : roots 0%nat = sub_root channel0)
    (Hchain : ∀ i, (i < k)%nat →
       ∃ m, Reader_next ctx i Old (roots i) (JStr "") = Normal m
            ∧ hasMessage m = Some (yields (roots (S i)) (payloads i)))
    (Hend : ∃ m, Reader_next ctx k Old (roots k) (JStr "") = Normal m ∧ hasMessage m = None) :
  delay (listen channel0) = timeout channel0
  ∧ ∀ fuel, (k < fuel)%nat →
      fires (listen channel0) fuel
      = Some {| tick_console := []; tick_outcome := Normal tt;
                delivered := [payloads <$> seq 0 k] |}.
Proof.
  split; [reflexivity |]. intros fuel Hfuel. destruct Hend as (m & Hread & Hnone).
  cbn [listen fires]. unfold listen_tick. rewrite <- Hroot.
  rewrite (fetch_completes ctx roots payloads k JUndefined JUndefined false (Normal m)
             Hctx Hchain Hread Hnone fuel Hfuel).
  reflexivity.
Qed.

(** X15. When a read of the chain raises, the firing of [listen] fails on
    [resp.nextRoot] with a TypeError ([fetch] has returned [undefined]): the
    callback is not called, not even with the messages read before the
    failure, and the error of the read is on the console. *)
Theorem listen_fails_on_aborted_fetch (ctx : Context) (channel0 : Subscription)
    (roots payloads : nat → string) (j : nat) (e : error)
    (Hctx : createContext = Normal ctx)
    (Hroot : roots 0%nat = sub_root channel0)
    (Hchain : ∀ i, (i < j)%nat →
       ∃ m, Reader_next ctx i Old (roots i) (JStr "") = Normal m
            ∧ hasMessage m = Some (yields (roots (S i)) (payloads i)))
    (Hraise : Reader_next ctx j Old (roots j) (JStr "") = Throw e) :
  ∀ fuel, (j < fuel)%nat →
    ∃ t what,
      fires (listen channel0) fuel = Some t
      ∧ tick_outcome t = Throw (TypeError what)
      ∧ delivered t = []
      ∧ tick_console t = [console_error "failed to parse: " e].
Proof.
  intros fuel Hfuel. cbn [listen fires]. unfold listen_tick. rewrite <- Hroot.
  rewrite (fetch_completes ctx roots payloads j JUndefined JUndefined false (Throw e)
             Hctx Hchain Hraise I fuel Hfuel).
  do 2 eexists. repeat split.
Qed.

(** ** subscribe *)


(** ** attach *)


(** ** keyGen *)

Lemma append_empty_r (s : string) : s +:+ "" = s.
Proof.
  induction s as [|c s IH]; [reflexivity |].
  change (String c s +:+ "") with (String c (s +:+ "")). by rewrite IH.
Qed.

Lemma append_assoc (a b c : string) : (a +:+ b) +:+ c = a +:+ (b +:+ c).
Proof.
  induction a as [|x a IH]; [reflexivity |].
  change (String x (a +:+ b) +:+ c = String x (a +:+ (b +:+ c))). by rewrite <- IH.
Qed.

Lemma tryte_of_length (byte : Byte.byte) : String.length (tryte_of byte) = 1%nat.
Proof. destruct byte; reflexivity. Qed.

Lemma tryte_of_tryte (byte : Byte.byte) : tryte_string (tryte_of byte).
Proof.
  unfold tryte_string.
  assert (H : bool_decide (Forall (λ c, c ∈ String.list_ascii_of_string charset)
                             (String.list_ascii_of_string (tryte_of byte))) = true)
    by (destruct byte; vm_compute; reflexivity).
  by apply bool_decide_eq_true in H.
Qed.

Lemma join_length (l : list Byte.byte) :
  String.length (join (tryte_of <$> l)) = length l.
Proof.
  induction l as [|b l IH]; [reflexivity |].
  change (join (tryte_of <$> b :: l)) with (tryte_of b +:+ join (tryte_of <$> l)).
  by rewrite length_append, tryte_of_length, IH.
Qed.

Lemma list_ascii_append (a b : string) :
  String.list_ascii_of_string (a +:+ b)
  = (String.list_ascii_of_string a ++ String.list_ascii_of_string b)%list.
Proof.
  induction a as [|c a IH]; [reflexivity |].
  change (c :: String.list_ascii_of_string (a +:+ b)
          = c :: (String.list_ascii_of_string a ++ String.list_ascii_of_string b)%list).
  by rewrite IH.
Qed.

Lemma join_tryte (l : list Byte.byte) : tryte_string (join (tryte_of <$> l)).
Proof.
  induction l as [|b l IH]; [constructor |].
  change (join (tryte_of <$> b :: l)) with (tryte_of b +:+ join (tryte_of <$> l)).
  unfold tryte_string. rewrite list_ascii_append.
  apply Forall_app. split; [apply tryte_of_tryte | exact IH].
Qed.

Lemma keyGen_loop_spec (length0 : Z) (randomBytes : list Byte.byte) (key : string) :
  keyGen_loop length0 randomBytes key
  = let need := Z.to_nat (length0 - Z.of_nat (String.length key)) in
    let good := filter (λ b, accepted b = true) randomBytes in
    if decide (need ≤ length good)%nat
    then Some (key +:+ join (tryte_of <$> take need good))
    else None.
Proof.
  cbv zeta. revert key. induction randomBytes as [|b rest IH]; intros key;
    cbn [keyGen_loop].
  - destruct (_ <? _) eqn:Hlt.
    + apply Z.ltb_lt in Hlt. rewrite decide_False; [reflexivity |]. simpl. lia.
    + apply Z.ltb_ge in Hlt. replace (Z.to_nat _) with 0%nat by lia.
      simpl. by rewrite append_empty_r.
  - destruct (_ <? _) eqn:Hlt.
    + apply Z.ltb_lt in Hlt. destruct (accepted b) eqn:Hb.
      * rewrite filter_cons_True by assumption. rewrite IH.
        rewrite length_append, tryte_of_length.
        replace (Z.to_nat (length0 - Z.of_nat (String.length key)))
          with (S (Z.to_nat (length0 - Z.of_nat (String.length key + 1)))) by lia.
        cbn [length take fmap list_fmap join foldr].
        destruct (decide (_ ≤ _)%nat) as [Hle | Hgt].
        -- rewrite decide_True by lia. by rewrite append_assoc.
        -- rewrite decide_False by lia. reflexivity.
      * rewrite filter_cons_False by (rewrite Hb; discriminate). apply IH.
    + apply Z.ltb_ge in Hlt. replace (Z.to_nat _) with 0%nat by lia.
      rewrite decide_True by lia. simpl. by rewrite append_empty_r.
Qed.

Lemma keyGen_unfold (length0 : Z) (randomBytes : list Byte.byte) :
  keyGen length0 randomBytes
  = let good := filter (λ b, accepted b = true) randomBytes in
    if decide (Z.to_nat length0 ≤ length good)%nat
    then Some (join (tryte_of <$> take (Z.to_nat length0) good))
    else None.
Proof.
  unfold keyGen. rewrite keyGen_loop_spec. cbv zeta.
  change (Z.of_nat (String.length "")) with 0. rewrite Z.sub_0_r.
  by destruct (decide _).
Qed.

(** X18. [keyGen] skips the bytes from 243 up and turns each other byte into
    one tryte: when it returns, the bytes handed out held at least [length]
    bytes below 243 and the key is the trytes of the first [length] of
    them, so it has [length] characters (none when [length] is negative),
    all of the tryte alphabet. *)
Theorem keyGen_takes_accepted_bytes (length0 : Z) (randomBytes : list Byte.byte)
    (key : string)
    (Hkey : keyGen length0 randomBytes = Some key) :
  let good := filter (λ b, accepted b = true) randomBytes in
  (Z.to_nat length0 ≤ length good)%nat
  ∧ key = join (tryte_of <$> take (Z.to_nat length0) good)
  ∧ String.length key = Z.to_nat length0
  ∧ tryte_string key.
Proof.
  cbv zeta. rewrite keyGen_unfold in Hkey. cbv zeta in Hkey.
  destruct (decide (_ ≤ _)%nat) as [Hle | Hgt]; [| discriminate].
  injection Hkey as <-.
  split; [assumption |]. split; [reflexivity |].
  split; [| apply join_tryte].
  rewrite join_length, length_take. lia.
Qed.

(** X19. Enough bytes below 243 make [keyGen] return: with at least
    [length] of them among the bytes handed out the loop ends. *)
Theorem keyGen_returns (length0 : Z) (randomBytes : list Byte.byte)
    (Henough : (Z.to_nat length0 ≤ length (filter (λ b, accepted b = true) randomBytes))%nat) :
  ∃ key, keyGen length0 randomBytes = Some key.
Proof.
  rewrite keyGen_unfold. cbv zeta. rewrite decide_True by assumption. eauto.
Qed.

(** X20. The bound 243 makes the trytes even: of the 256 byte values 243
    are taken, and each of the 27 trytes is the image of exactly 9 of
    them. *)
Theorem keyGen_is_unbiased :
  length all_bytes = 256%nat
  ∧ length (filter (λ b, accepted b = true) all_bytes) = 243%nat
  ∧ String.length charset = 27%nat
  ∧ Forall (λ c, length (filter (λ b, accepted b = true ∧ tryte_of b = String c "")
                           all_bytes) = 9%nat)
      (String.list_ascii_of_string charset).
Proof.
  split; [reflexivity |]. split; [vm_compute; reflexivity |]. split; [reflexivity |].
  let l := eval vm_compute in (String.list_ascii_of_string charset) in
  change (String.list_ascii_of_string charset) with l.
  repeat (constructor; [vm_compute; reflexivity |]). constructor.
Qed.

(** X21. A state made by [init] without a seed has a seed of 81 trytes, and
    the channel of a state made with a seed: public, no side key, a valid
    cursor at position 0 in a tree of one leaf. *)
Theorem init_without_seed_draws_a_tryte_seed (randomBytes : list Byte.byte)
    (security0 : option Z) (state : State)
    (Hinit : init_without_seed randomBytes security0 = Some state) :
  String.length (seed state) = 81%nat
  ∧ tryte_string (seed state)
  ∧ state = init (seed state) security0
  ∧ valid_channel (channel state)
  ∧ keyed (channel state)
  ∧ leaf (channel state) = 0.
Proof.
  unfold init_without_seed in Hinit.
  destruct (keyGen 81 randomBytes) as [key|] eqn:Hkey; [| discriminate].
  injection Hinit as <-.
  rewrite keyGen_unfold in Hkey. cbv zeta in Hkey.
  destruct (decide (_ ≤ _)%nat) as [Hle | Hgt]; [| discriminate].
  injection Hkey as <-. simpl.
  split; [rewrite join_length, length_take; lia |].
  split; [apply join_tryte |].
  repeat split; try (unfold valid_channel; simpl; lia).
  intros Hm. discriminate Hm.
Qed.

End Controller.

(** ** Reassembly on the engine's sort *)

Lemma comparator_not_negative (a b : fragment) : 0 ≤ comparator a b.
Proof. unfold comparator. destruct (b.1 <? a.1); lia. Qed.

(** The comparator answers "equal" one way and "greater" the other way
    round: it is not a consistent comparator. *)
Lemma comparator_inconsistent :
  comparator (0, "ABC") (1, "XYZ") = 0 ∧ comparator (1, "XYZ") (0, "ABC") = 1.
Proof. split; reflexivity. Qed.

Lemma run_tail_not_negative {A : Type} (comparefn : A → A → Z) (previous : A) (rest : list A) :
  (∀ a b, 0 ≤ comparefn a b) →
  V8.run_tail comparefn false previous rest = length rest.
Proof.
  intros Hcmp. revert previous. induction rest as [|x rest IH]; intros previous; simpl.
  - reflexivity.
  - rewrite (proj2 (Z.ltb_ge _ _) (Hcmp x previous)). by rewrite IH.
Qed.

(** A comparator without negative answers makes the whole array one
    ascending run: nothing moves. *)
Lemma sort_not_negative {A : Type} (comparefn : A → A → Z) (l : list A) :
  (∀ a b, 0 ≤ comparefn a b) →
  V8.sort comparefn l = l.
Proof.
  intros Hcmp. unfold V8.sort. destruct l as [|x [|y rest]]; try reflexivity.
  change (length (x :: y :: rest) <? 2)%nat with false. cbv iota.
  unfold V8.CountAndMakeRun.
  rewrite (proj2 (Z.ltb_ge _ _) (Hcmp y x)). cbn [fst snd].
  rewrite run_tail_not_negative by assumption.
  replace (length (x :: y :: rest) - (2 + length rest))%nat with 0%nat by (simpl; lia).
  reflexivity.
Qed.

(** C3 on the code. With the comparator of [processTx] the sort leaves the
    fragments in arrival order, so the payload is the concatenation in
    arrival order: position 1 (["XYZ"]) arriving before position 0 (["ABC"])
    gives ["XYZABC"], the opposite order ["ABCXYZ"]. *)
Theorem reassembly_follows_arrival_order :
  (∀ l, V8.sort comparator l = l)
  ∧ map_processTx V8.sort ∅ Stub.xyz_then_abc = Normal (∅, [None; Some "XYZABC"])
  ∧ map_processTx V8.sort ∅ Stub.abc_then_xyz = Normal (∅, [None; Some "ABCXYZ"])
  ∧ txHashesToMessages (Stub.getTransactionObjects Stub.xyz_then_abc) V8.sort
      ["TXHASH1"; "TXHASH2"]
    = Normal ["XYZABC"].
Proof.
  split; [intros l; apply sort_not_negative, comparator_not_negative |].
  repeat split; vm_compute; reflexivity.
Qed.

(** With the comparator an ascending sort takes, the same sort puts the
    fragments in position order. *)
Example sort_by_position :
  reduce_contents (V8.sort numeric_comparator [(1, "XYZ"); (0, "ABC")]) = "ABCXYZ"
  ∧ reduce_contents (V8.sort numeric_comparator [(0, "ABC"); (1, "XYZ")]) = "ABCXYZ".
Proof. split; vm_compute; reflexivity. Qed.

(** ** Examples *)

(** Against C2 as stated: after the fragment of position 0 has arrived twice
    the bundle is emitted, with one distinct position recorded where
    [lastIndex + 1] is 2. *)
Lemma duplicate_fragments_emit :
  map_processTx V8.sort ∅ Stub.abc_twice = Normal (∅, [None; Some "ABCABC"])
  ∧ Forall (λ t, Txo.bundle t = "B1" ∧ Txo.lastIndex t = 1) Stub.abc_twice
  ∧ distinct_positions (entry_of <$> Stub.abc_twice) = 1%nat
  ∧ Z.of_nat (distinct_positions (entry_of <$> Stub.abc_twice)) ≠ 1 + 1.
Proof.
  split; [vm_compute; reflexivity |].
  split; [repeat constructor |].
  split; vm_compute; congruence.
Qed.

(** Against C4 as stated: after two fragments for position 0 the buffer
    holds both, the earlier content first, not the later one alone. *)
Lemma duplicate_position_kept :
  (∃ bundles,
     map_processTx V8.sort ∅ Stub.old_then_new = Normal (bundles, [None; None])
     ∧ recorded bundles "B1" = [(0, "OLD"); (0, "NEW")])
  ∧ [(0, "OLD"); (0, "NEW")] ≠ [(0, "NEW")]
  ∧ ¬ NoDup ([(0, "OLD"); (0, "NEW")] : list fragment).*1.
Proof.
  split; [eexists; split; vm_compute; reflexivity |].
  split; [discriminate |].
  intros Hnd. apply NoDup_cons in Hnd as [Hin _]. apply Hin. left.
Qed.

(** Against C8 as stated: the first read yields ["P0"], the second raises;
    the call resolves to [undefined], which carries neither the error nor the
    payload gathered. *)
Lemma aborted_fetch_returns_undefined :
  fetch unit (Normal tt) Stub.failing_reader 5 "R0" (JStr "public") JNull true
  = Some {| fetched := {| console := [console_error "failed to parse: "
                                        (Raised "request failed")];
                          outcome := Normal fetch_undefined |};
            observed := ["P0"] |}
  ∧ surfaced_error {| console := [console_error "failed to parse: "
                                    (Raised "request failed")];
                      outcome := Normal fetch_undefined |} = None
  ∧ returned_messages {| console := [console_error "failed to parse: "
                                       (Raised "request failed")];
                         outcome := Normal fetch_undefined |} = None.
Proof. repeat split; vm_compute; reflexivity. Qed.

(** The first publication on a fresh channel ([index = count - 1 = 0])
    enters the next tree. *)
Lemma create_advances_cursor_witness :
  valid_channel (channel (init "SEED" None))
  ∧ ∃ created,
      create Stub.createMessage Stub.trits Stub.trytes Stub.hash (init "SEED" None) "MSG"
      = Normal created
      ∧ index (channel (Created.state created)) = 0
      ∧ start (channel (Created.state created)) = 1
      ∧ count (channel (Created.state created)) = 1.
Proof.
  assert (Hvalid : valid_channel (channel (init "SEED" None)))
    by (unfold valid_channel; simpl; lia).
  split; [exact Hvalid |].
  destruct (create_advances_cursor Stub.createMessage Stub.trits Stub.trytes Stub.hash
              (init "SEED" None) "MSG" _ Hvalid eq_refl)
    as (created & Hcreate & _ & _ & Hexhausted & _).
  exists created. split; [exact Hcreate |]. exact (Hexhausted eq_refl).
Defined.

Lemma address_derivation_witness :
  3 ≠ 0
  ∧ fetchSingle_address Stub.trits Stub.trytes Stub.hash "R" (JStr "public") (Some 3) = "R"
  ∧ fetchSingle_address Stub.trits Stub.trytes Stub.hash "R" (JStr "restricted") (Some 3)
    = Stub.trytes (Stub.hash 3 (Stub.trits "R"))
  ∧ create_address Stub.trits Stub.trytes Stub.hash (JStr "private") "R"
    = Stub.trytes (Stub.hash 81 (Stub.trits "R")).
Proof.
  assert (Hrounds : 3 ≠ 0) by lia.
  split; [exact Hrounds |].
  destruct (address_derivation Stub.createMessage Stub.trits Stub.trytes Stub.hash
              "R" 3 Hrounds) as ((_ & Hpublic) & Hhashed & _).
  split; [exact (proj1 (Hpublic (Some 3))) |].
  split.
  - exact (proj1 (Hhashed (JStr "restricted") (or_intror eq_refl))).
  - exact (proj2 (proj2 (Hhashed (JStr "private") (or_introl eq_refl)))).
Defined.

Lemma changeMode_rejects_witness :
  ((JStr "restricted" = JStr "restricted" ∧ truthy JNull = false)
   ∨ ¬ recognised (JStr "restricted"))
  ∧ cm_state (changeMode (init "SEED" None) (JStr "restricted") JNull) = init "SEED" None
  ∧ cm_return (changeMode (init "SEED" None) (JStr "restricted") JNull) = returns_undefined.
Proof.
  assert (Hbad : (JStr "restricted" = JStr "restricted" ∧ truthy JNull = false)
                 ∨ ¬ recognised (JStr "restricted"))
    by (left; split; reflexivity).
  split; [exact Hbad |].
  destruct (changeMode_rejects (init "SEED" None) (JStr "restricted") JNull Hbad)
    as (Hstate & _ & _ & Hreturn & _).
  split; [exact Hstate | exact Hreturn].
Defined.

Lemma changeMode_pads_side_key_witness :
  recognised (JStr "private")
  ∧ truthy (JStr "ABC") = true
  ∧ (String.length "ABC" ≤ 81)%nat
  ∧ side_key (channel (cm_state (changeMode (init "SEED" None) (JStr "private") (JStr "ABC"))))
    = JStr "ABC999999999999999999999999999999999999999999999999999999999999999999999999999999".
Proof.
  assert (Hmode : recognised (JStr "private")) by (right; left; reflexivity).
  assert (Hlen : (String.length "ABC" ≤ 81)%nat) by (simpl; lia).
  split; [exact Hmode |]. split; [reflexivity |]. split; [exact Hlen |].
  exact (proj1 (changeMode_pads_side_key (init "SEED" None) (JStr "private") "ABC"
                  Hmode eq_refl Hlen)).
Defined.

(** One fragment of ["B1"] ([lastIndex = 2]) among the fragments of ["B2"],
    which is emitted twice: ["B1"] is not emitted and its fragment waits. *)
Lemma emitted_iff_entry_count_witness :
  Forall not_inherited (Stub.interleaved_pre ++ Stub.fragment_of "B1" 0 "ABC" 2
                        :: Stub.interleaved_post)
  ∧ ∃ bundles items,
      map_processTx V8.sort ∅
        (Stub.interleaved_pre ++ Stub.fragment_of "B1" 0 "ABC" 2 :: Stub.interleaved_post)
      = Normal (bundles, items)
      ∧ items !! 1%nat = Some None
      ∧ recorded bundles "B1" = [(0, "ABC")].
Proof.
  assert (Hnames : Forall not_inherited
            (Stub.interleaved_pre ++ Stub.fragment_of "B1" 0 "ABC" 2
               :: Stub.interleaved_post))
    by (repeat constructor).
  split; [exact Hnames |].
  destruct (emitted_iff_entry_count V8.sort Stub.interleaved_pre Stub.interleaved_post
              (Stub.fragment_of "B1" 0 "ABC" 2) Hnames)
    as (bundles & items & Hrun & _ & _ & Hfewer).
  exists bundles, items. split; [exact Hrun |].
  apply (Hfewer 2).
  - intros t Ht Hb. simpl in Ht.
    repeat (apply elem_of_cons in Ht as [-> | Ht]); try discriminate Hb; try reflexivity.
    by apply elem_of_nil in Ht.
  - vm_compute. reflexivity.
Defined.

Lemma duplicate_position_is_appended_witness :
  ({["B1" := [(0, "OLD")]]} : Bundles) !! "B1" = Some [(0, "OLD")]
  ∧ (0, "OLD") ∈ ([(0, "OLD")] : list fragment)
  ∧ ∃ bundles',
      processTx V8.sort {["B1" := [(0, "OLD")]]} (Stub.fragment_of "B1" 0 "NEW" 2)
      = Normal (bundles', None)
      ∧ recorded bundles' "B1" = [(0, "OLD"); (0, "NEW")].
Proof.
  assert (Hbuffer : ({["B1" := [(0, "OLD")]]} : Bundles) !! "B1" = Some [(0, "OLD")])
    by reflexivity.
  assert (Hrecorded : (0, "OLD") ∈ ([(0, "OLD")] : list fragment)) by left.
  split; [exact Hbuffer |]. split; [exact Hrecorded |].
  apply (duplicate_position_is_appended V8.sort {["B1" := [(0, "OLD")]]}
           (Stub.fragment_of "B1" 0 "NEW" 2) [(0, "OLD")] "OLD" Hbuffer Hrecorded).
  simpl. lia.
Defined.

Lemma chain_reader_yields (i : nat) :
  (i < 3)%nat →
  ∃ m, Stub.chain_reader tt i (reader_mode (JStr "public")) (Stub.chain_root i)
         (js_or JNull (JStr "")) = Normal m
       ∧ hasMessage m = Some (yields (Stub.chain_root (S i)) (Stub.chain_payload i)).
Proof.
  intros Hi. destruct i as [|[|[|i]]]; [| | | lia]; eexists; split; reflexivity.
Defined.

(** The chain [R0 -> R1 -> R2] with nothing at [R3]. *)
Lemma fetch_finite_chain_witness :
  fetch unit (Normal tt) Stub.chain_reader 4 "R0" (JStr "public") JNull false
  = Some {| fetched := {| console := [];
                          outcome := Normal (fetch_result ["P0"; "P1"; "P2"] "R3") |};
            observed := [] |}.
Proof.
  apply (fetch_finite_chain unit (Normal tt) Stub.chain_reader tt
           Stub.chain_root Stub.chain_payload 3 (JStr "public") JNull false
           eq_refl chain_reader_yields).
  - eexists. split; reflexivity.
  - lia.
Defined.

Lemma failing_reader_yields (i : nat) :
  (i < 1)%nat →
  ∃ m, Stub.failing_reader tt i (reader_mode (JStr "public")) (Stub.chain_root i)
         (js_or JNull (JStr "")) = Normal m
       ∧ hasMessage m = Some (yields (Stub.chain_root (S i)) (Stub.chain_payload i)).
Proof.
  intros Hi. destruct i as [|i]; [| lia]. eexists; split; reflexivity.
Defined.

Lemma fetch_aborted_witness :
  Stub.failing_reader tt 1 (reader_mode (JStr "public")) "R1" (js_or JNull (JStr ""))
  = Throw (Raised "request failed")
  ∧ ∃ out,
      fetch unit (Normal tt) Stub.failing_reader 5 "R0" (JStr "public") JNull true = Some out
      ∧ console (fetched out) = [console_error "failed to parse: " (Raised "request failed")]
      ∧ returned_messages (fetched out) = None
      ∧ observed out = ["P0"].
Proof.
  split; [reflexivity |].
  apply (fetch_aborted unit (Normal tt) Stub.failing_reader tt
           Stub.chain_root Stub.chain_payload 1 (Raised "request failed")
           (JStr "public") JNull true eq_refl failing_reader_yields eq_refl 5).
  lia.
Defined.

(** ** Further examples *)

Lemma create_moves_leaf_witness :
  valid_channel (channel (init "SEED" None))
  ∧ ∃ created,
      create Stub.createMessage Stub.trits Stub.trytes Stub.hash (init "SEED" None) "MSG"
      = Normal created
      ∧ leaf (channel (Created.state created)) - leaf (channel (init "SEED" None)) = 1.
Proof.
  assert (Hvalid : valid_channel (channel (init "SEED" None)))
    by (unfold valid_channel; simpl; lia).
  split; [exact Hvalid |].
  destruct (create_moves_leaf Stub.createMessage Stub.trits Stub.trytes Stub.hash
              (init "SEED" None) "MSG" _ Hvalid eq_refl)
    as (created & Hcreate & Hleaf & _).
  exists created. split; [exact Hcreate | exact Hleaf].
Defined.

Lemma first_publication :
  publishes Stub.createMessage Stub.trits Stub.trytes Stub.hash
    (init "SEED" None)
    (set_channel (init "SEED" None)
       (set_next_root (advance (channel (init "SEED" None))) (JStr "NEXT"))).
Proof. exists "MSG". eexists. split; reflexivity. Defined.

Lemma second_publication :
  publishes Stub.createMessage Stub.trits Stub.trytes Stub.hash
    (set_channel (init "SEED" None)
       (set_next_root (advance (channel (init "SEED" None))) (JStr "NEXT")))
    (set_channel (init "SEED" None)
       (set_next_root
          (advance (set_next_root (advance (channel (init "SEED" None))) (JStr "NEXT")))
          (JStr "NEXT"))).
Proof. exists "MSG". eexists. split; reflexivity. Defined.

Lemma publications_use_fresh_leaves_witness :
  valid_channel (channel (init "SEED" None))
  ∧ count (channel (init "SEED" None)) ≤ next_count (channel (init "SEED" None))
  ∧ ∃ s', tc (publishes Stub.createMessage Stub.trits Stub.trytes Stub.hash)
            (init "SEED" None) s'
          ∧ leaf (channel (init "SEED" None)) < leaf (channel s').
Proof.
  assert (Hvalid : valid_channel (channel (init "SEED" None)))
    by (unfold valid_channel; simpl; lia).
  assert (Hsize : count (channel (init "SEED" None)) ≤ next_count (channel (init "SEED" None)))
    by (simpl; lia).
  split; [exact Hvalid |]. split; [exact Hsize |].
  pose proof (tc_l _ _ _ _ first_publication (tc_once _ _ _ second_publication)) as Hpath.
  eexists. split; [exact Hpath |].
  exact (proj1 (publications_use_fresh_leaves Stub.createMessage Stub.trits Stub.trytes
                  Stub.hash _ _ Hvalid Hsize Hpath)).
Defined.

Lemma publications_from_init_witness :
  ∃ s', nsteps (publishes Stub.createMessage Stub.trits Stub.trytes Stub.hash) 2
          (init "SEED" None) s'
        ∧ start (channel s') = 2
        ∧ index (channel s') = 0.
Proof.
  pose proof (nsteps_l _ _ _ _ _ first_publication
                (nsteps_l _ _ _ _ _ second_publication (nsteps_O _ _))) as Hpath.
  eexists. split; [exact Hpath |].
  destruct (publications_from_init Stub.createMessage Stub.trits Stub.trytes Stub.hash
              "SEED" None 2 _ Hpath) as (Hstart & Hindex & _).
  split; [exact Hstart | exact Hindex].
Defined.

Lemma changeMode_stores_whole_key_witness :
  recognised (JStr "private")
  ∧ truthy (JStr Stub.long_key) = true
  ∧ ∃ stored,
      side_key (channel (cm_state (changeMode (init "SEED" None) (JStr "private")
                                     (JStr Stub.long_key)))) = JStr stored
      ∧ String.length stored = 85%nat
      ∧ stored = Stub.long_key.
Proof.
  assert (Hmode : recognised (JStr "private")) by (right; left; reflexivity).
  split; [exact Hmode |]. split; [reflexivity |].
  destruct (changeMode_stores_whole_key (init "SEED" None) (JStr "private") Stub.long_key
              Hmode eq_refl) as (stored & Hstored & _ & Hlen & Hlong).
  exists stored. split; [exact Hstored |]. split; [exact Hlen |].
  apply Hlong. vm_compute. lia.
Defined.

Lemma restricted_channel_is_keyed_witness :
  keyed (channel (init "SEED" None))
  ∧ keyed (channel (cm_state (changeMode (init "SEED" None) (JStr "restricted")
                                (JStr "KEY"))))
  ∧ keyed (channel (cm_state (changeMode (init "SEED" None) (JStr "restricted") JNull))).
Proof.
  assert (Hkeyed : keyed (channel (init "SEED" None))) by (intros Hm; discriminate Hm).
  split; [exact Hkeyed |].
  pose proof (proj1 (restricted_channel_is_keyed Stub.createMessage Stub.trits Stub.trytes
                       Stub.hash (init "SEED" None) Hkeyed)) as Hall.
  split; apply Hall.
Defined.

Lemma decode_accepts_stored_key_witness :
  recognised (JStr "restricted")
  ∧ truthy (JStr "KEY") = true
  ∧ decode Stub.decodeMessage "PAYLOAD"
      (side_key (channel (cm_state (changeMode (init "SEED" None) (JStr "restricted")
                                      (JStr "KEY"))))) "ROOT"
    = decode Stub.decodeMessage "PAYLOAD" (JStr "KEY") "ROOT".
Proof.
  assert (Hmode : recognised (JStr "restricted")) by (right; right; reflexivity).
  split; [exact Hmode |]. split; [reflexivity |].
  exact (proj2 (decode_accepts_stored_key Stub.decodeMessage (init "SEED" None)
                  (JStr "restricted") (JStr "KEY") "PAYLOAD" "ROOT" Hmode eq_refl)).
Defined.

Lemma reader_finds_attachment_address_witness :
  recognised (JStr "restricted")
  ∧ fetchSingle_address Stub.trits Stub.trytes Stub.hash "R" (JStr "restricted") None
    = create_address Stub.trits Stub.trytes Stub.hash (JStr "restricted") "R".
Proof.
  assert (Hmode : recognised (JStr "restricted")) by (right; right; reflexivity).
  split; [exact Hmode |].
  exact (proj1 (reader_finds_attachment_address Stub.trits Stub.trytes Stub.hash
                  "R" (JStr "restricted") Hmode)).
Defined.

Lemma fetch_callback_sees_returned_messages_witness :
  fetch unit (Normal tt) Stub.chain_reader 4 "R0" (JStr "public") JNull true
  = Some {| fetched := {| console := [];
                          outcome := Normal (fetch_result ["P0"; "P1"; "P2"] "R3") |};
            observed := ["P0"; "P1"; "P2"] |}
  ∧ observed {| fetched := {| console := [];
                              outcome := Normal (fetch_result ["P0"; "P1"; "P2"] "R3") |};
                observed := ["P0"; "P1"; "P2"] |}
    = ["P0"; "P1"; "P2"].
Proof.
  assert (Hrun : fetch unit (Normal tt) Stub.chain_reader 4 "R0" (JStr "public") JNull true
                 = Some {| fetched := {| console := [];
                             outcome := Normal (fetch_result ["P0"; "P1"; "P2"] "R3") |};
                           observed := ["P0"; "P1"; "P2"] |})
    by reflexivity.
  split; [exact Hrun |].
  exact (proj1 (fetch_callback_sees_returned_messages unit (Normal tt) Stub.chain_reader
                  4 "R0" (JStr "public") JNull true _ ["P0"; "P1"; "P2"] Hrun eq_refl)).
Defined.

Lemma cyclic_reader_yields (n : nat) (r : string) :
  ∃ m first,
    Stub.cyclic_reader tt n (reader_mode (JStr "public")) r (js_or JNull (JStr "")) = Normal m
    ∧ hasMessage m = Some first.
Proof. do 2 eexists. split; reflexivity. Defined.

Lemma fetch_never_returns_on_endless_chain_witness :
  fetch unit (Normal tt) Stub.cyclic_reader 1000 "R0" (JStr "public") JNull false = None.
Proof.
  exact (fetch_never_returns_on_endless_chain unit (Normal tt) Stub.cyclic_reader tt "R0"
           (JStr "public") JNull false eq_refl cyclic_reader_yields 1000%nat).
Defined.

Lemma fetch_reads_every_root_witness :
  fetch unit (Normal tt) Stub.chain_reader 3 "R0" (JStr "public") JNull false = None.
Proof.
  apply (fetch_reads_every_root unit (Normal tt) Stub.chain_reader tt
           Stub.chain_root Stub.chain_payload 3 (JStr "public") JNull false
           eq_refl chain_reader_yields 3%nat).
  lia.
Defined.

Lemma reattached_names : Forall not_inherited Stub.reattached.
Proof. repeat constructor. Defined.

Lemma reattached_last (t : Txo.t) :
  t ∈ Stub.reattached → Txo.bundle t = "B1" → Txo.lastIndex t = 1.
Proof.
  intros Ht Hb. unfold Stub.reattached in Ht.
  repeat (apply elem_of_cons in Ht as [-> | Ht]); try discriminate Hb; try reflexivity.
  by apply elem_of_nil in Ht.
Defined.

Lemma v8_sort_permutes (l : list fragment) : V8.sort comparator l ≡ₚ l.
Proof. by rewrite (sort_not_negative comparator l comparator_not_negative). Defined.

Lemma bundles_do_not_interfere_witness :
  Forall not_inherited Stub.reattached
  ∧ ∃ B items B' items',
      map_processTx V8.sort ∅ Stub.reattached = Normal (B, items)
      ∧ map_processTx V8.sort ∅ (fragments_of "B1" Stub.reattached) = Normal (B', items')
      ∧ items_of "B1" Stub.reattached items = items'
      ∧ recorded B "B1" = recorded B' "B1".
Proof.
  split; [exact reattached_names |].
  exact (bundles_do_not_interfere V8.sort "B1" Stub.reattached reattached_names).
Defined.

Lemma reassembly_keeps_every_character_witness :
  Forall not_inherited Stub.reattached
  ∧ (∀ l, V8.sort comparator l ≡ₚ l)
  ∧ ∃ B items,
      map_processTx V8.sort ∅ Stub.reattached = Normal (B, items)
      ∧ (emitted_chars items + buffered B)%nat = 14%nat.
Proof.
  split; [exact reattached_names |]. split; [exact v8_sort_permutes |].
  exact (reassembly_keeps_every_character V8.sort Stub.reattached reattached_names
           v8_sort_permutes).
Defined.

Lemma bundle_emitted_every_full_count_witness :
  0 ≤ 1
  ∧ Forall not_inherited Stub.reattached
  ∧ ∃ B items,
      map_processTx V8.sort ∅ Stub.reattached = Normal (B, items)
      ∧ length (omap id (items_of "B1" Stub.reattached items)) = 2%nat
      ∧ length (recorded B "B1") = 0%nat.
Proof.
  assert (Hn : 0 ≤ 1) by lia.
  split; [exact Hn |]. split; [exact reattached_names |].
  exact (bundle_emitted_every_full_count V8.sort "B1" 1 Stub.reattached Hn
           reattached_names reattached_last).
Defined.

Lemma old_reader_yields (i : nat) :
  (i < 3)%nat →
  ∃ m, Stub.old_reader tt i Old (Stub.chain_root i) (JStr "") = Normal m
       ∧ hasMessage m = Some (yields (Stub.chain_root (S i)) (Stub.chain_payload i)).
Proof.
  intros Hi. destruct i as [|[|[|i]]]; [| | | lia]; eexists; split; reflexivity.
Defined.

(** The subscription holds a key and the reader answers in mode [Old]
    without a key only: [listen] reads the chain. *)
Lemma listen_delivers_chain_witness :
  delay (listen unit (Normal tt) Stub.old_reader Stub.subscription) = 5000
  ∧ fires (listen unit (Normal tt) Stub.old_reader Stub.subscription) 4
    = Some {| tick_console := []; tick_outcome := Normal tt;
              delivered := [["P0"; "P1"; "P2"]] |}.
Proof.
  destruct (listen_delivers_chain unit (Normal tt) Stub.old_reader tt Stub.subscription
              Stub.chain_root Stub.chain_payload 3 eq_refl eq_refl old_reader_yields)
    as [Hdelay Hfires].
  - eexists. split; reflexivity.
  - split; [exact Hdelay |]. apply Hfires. lia.
Defined.

Lemma failing_reader_yields_old (i : nat) :
  (i < 1)%nat →
  ∃ m, Stub.failing_reader tt i Old (Stub.chain_root i) (JStr "") = Normal m
       ∧ hasMessage m = Some (yields (Stub.chain_root (S i)) (Stub.chain_payload i)).
Proof.
  intros Hi. destruct i as [|i]; [| lia]. eexists; split; reflexivity.
Defined.

Lemma listen_fails_on_aborted_fetch_witness :
  ∃ t what,
    fires (listen unit (Normal tt) Stub.failing_reader Stub.subscription) 5 = Some t
    ∧ tick_outcome t = Throw (TypeError what)
    ∧ delivered t = []
    ∧ tick_console t = [console_error "failed to parse: " (Raised "request failed")].
Proof.
  apply (listen_fails_on_aborted_fetch unit (Normal tt) Stub.failing_reader tt
           Stub.subscription Stub.chain_root Stub.chain_payload 1 (Raised "request failed")
           eq_refl eq_refl failing_reader_yields_old eq_refl 5%nat).
  lia.
Defined.



Lemma keyGen_takes_accepted_bytes_witness :
  keyGen 3 Stub.randomBytes = Some "A9A"
  ∧ String.length "A9A" = Z.to_nat 3
  ∧ tryte_string "A9A".
Proof.
  assert (Hkey : keyGen 3 Stub.randomBytes = Some "A9A") by reflexivity.
  split; [exact Hkey |].
  exact (proj2 (proj2 (keyGen_takes_accepted_bytes 3 Stub.randomBytes "A9A" Hkey))).
Defined.

Lemma keyGen_returns_witness :
  (Z.to_nat 4 ≤ length (filter (λ b, accepted b = true) Stub.randomBytes))%nat
  ∧ ∃ key, keyGen 4 Stub.randomBytes = Some key.
Proof.
  assert (Henough : (Z.to_nat 4
                     ≤ length (filter (λ b, accepted b = true) Stub.randomBytes))%nat)
    by (vm_compute; lia).
  split; [exact Henough |].
  exact (keyGen_returns 4 Stub.randomBytes Henough).
Defined.

Lemma init_without_seed_draws_a_tryte_seed_witness :
  ∃ state,
    init_without_seed Stub.seed_bytes None = Some state
    ∧ String.length (seed state) = 81%nat
    ∧ tryte_string (seed state).
Proof.
  destruct (init_without_seed Stub.seed_bytes None) as [state|] eqn:Hinit.
  - exists state. split; [reflexivity |].
    destruct (init_without_seed_draws_a_tryte_seed Stub.seed_bytes None state Hinit)
      as (Hlen & Htryte & _).
    split; [exact Hlen | exact Htryte].
  - vm_compute in Hinit. discriminate Hinit.
Defined.
